(** * Inventory API (app.py): clients, their computers, and the ports found on them

    A shallow embedding of the four routes of [app.py] -- [create_clients],
    [get_all_clients], [update_client], [delete_client] -- over a model of the
    three SQLite tables and of the SQLAlchemy session the routes work through.

    - A table is the list of its rows in rowid order; a scan returns the rows
      in that order and [.first()] takes the first match.
    - [id] is an INTEGER PRIMARY KEY: a new row receives the largest id of the
      table plus one (1 in an empty table) and is appended.
    - [clients.name] and [computers.ip_address] are UNIQUE; an INSERT that
      repeats a value raises [IntegrityError].  The [ports] table has no
      constraint besides its primary key.
    - The session is created with [autoflush=False]: objects handed to
      [session.add] stay pending until [session.flush()] or
      [session.commit()], and queries do not see them.  A flush writes pending
      rows table by table (clients, computers, ports), in the order they were
      added.
    - A Python dict is an association list in insertion order. *)

From Stdlib Require Import ZArith List String Bool Lia Permutation.
Import ListNotations.
Local Open Scope Z_scope.
Local Open Scope string_scope.
Local Open Scope list_scope.

Set Implicit Arguments.

(** ** Python dicts *)

Definition dict (V : Type) := list (string * V).

Definition keys {V} (d : dict V) : list string := map fst d.

(** [d.get(k)] on a key whose value may be JSON null: a missing key and a
    null value both give [None]. *)
Definition get {V} (field : option (option V)) : option V :=
  match field with
  | Some v => v
  | None => None
  end.

(** [d.get(k, default)]: the default is used only when the key is missing. *)
Definition get_or {V} (field : option V) (default : V) : V :=
  match field with
  | Some v => v
  | None => default
  end.

(** [d[k] = v]: an existing key keeps its position and takes the new value,
    a new key goes to the end. *)
Fixpoint dict_set {V} (d : dict V) (k : string) (v : V) : dict V :=
  match d with
  | [] => [(k, v)]
  | (k', v') :: d' =>
      if String.eqb k' k then (k', v) :: d' else (k', v') :: dict_set d' k v
  end.

(** [{k: v for (k, v) in items}] *)
Definition dict_of {V} (items : list (string * V)) : dict V :=
  fold_left (fun d kv => dict_set d (fst kv) (snd kv)) items [].

(** ** The three tables *)

Module Client.
Record t := mk { id : Z; name : string }.
End Client.

Module Computer.
Record t := mk {
  id : Z;
  ip_address : string;
  latency : option string;
  hostname : option string;
  client_id : Z
}.
End Computer.

Module Port.
Record t := mk {
  id : Z;
  port_number : string;
  service_name : string;
  computer_id : Z
}.
End Port.

Record Database := mkDatabase {
  clients : list Client.t;
  computers : list Computer.t;
  ports : list Port.t
}.

(** [Base.metadata.create_all] on a fresh file. *)
Definition empty_db : Database := mkDatabase [] [] [].

(** ** Request and response bodies *)

(** The value under an IP address: each key may be missing ([None]) or hold
    null ([Some None]); otherwise [latency] and [hostname] hold a string and
    [ports] a mapping from port number to service name. *)
Module ComputerData.
Record t := mk {
  latency : option (option string);
  hostname : option (option string);
  ports : option (option (dict string))
}.
End ComputerData.

(** One element of the list posted to [/clients/]. *)
Module ClientData.
Record t := mk {
  client : option string;
  computers : option (dict ComputerData.t)
}.
End ClientData.

(** The body put to [/clients/{client_name}]: the key [computers] may be
    missing, hold null, or hold a mapping from IP address to attributes. *)
Module UpdateData.
Record t := mk { computers : option (option (dict ComputerData.t)) }.
End UpdateData.

(** What [get_all_clients] builds per computer and per client. *)
Module ComputerView.
Record t := mk {
  ip_address : string;
  latency : option string;
  hostname : option string;
  ports : dict string
}.
End ComputerView.

Module ClientView.
Record t := mk { client : string; computers : list ComputerView.t }.
End ClientView.

Inductive response :=
| Message (message : string)
| Listing (result : list ClientView.t).

(** ** Exceptions *)

(** [detail=str(e)] is kept as the exception it was built from. *)
Inductive exn :=
| HTTPException (status_code : Z) (detail : detail)
| IntegrityError (statement : string)
| AttributeError (message : string)
with detail :=
| Detail (text : string)
| Str (e : exn).

Inductive result (A : Type) :=
| Return (a : A)
| Raise (e : exn).
Arguments Return {A} a.
Arguments Raise {A} e.

(** ** The session *)

(** Objects built by the routes and not yet flushed: they have no id. *)
Inductive NewComputer :=
| Computer_ (ip_address : string) (latency hostname : option string) (client_id : Z).

Inductive NewPort :=
| Port_ (port_number service_name : string) (computer_id : Z).

(** [committed] is what the database file holds, [tx] what the open
    transaction sees, [new_computers] and [new_ports] the pending objects. *)
Record Session := mkSession {
  committed : Database;
  tx : Database;
  new_computers : list NewComputer;
  new_ports : list NewPort
}.

Definition SessionLocal (d : Database) : Session := mkSession d d [] [].

(** A computation in a session either returns or raises; the session
    survives the exception, as the [except] and [finally] clauses use it. *)
Definition M (A : Type) := Session -> result A * Session.

Definition ret {A} (a : A) : M A := fun s => (Return a, s).

Definition raise {A} (e : exn) : M A := fun s => (Raise e, s).

Definition bind {A B} (m : M A) (k : A -> M B) : M B :=
  fun s =>
    match m s with
    | (Return a, s') => k a s'
    | (Raise e, s') => (Raise e, s')
    end.

Notation "x <- m ;; k" := (bind m (fun x => k))
  (at level 61, m at next level, right associativity).
Notation "m ;; k" := (bind m (fun _ => k))
  (at level 61, right associativity).

(** [for x in l: body(x)] *)
Fixpoint for_each {X} (l : list X) (body : X -> M unit) : M unit :=
  match l with
  | [] => ret tt
  | x :: l' => body x ;; for_each l' body
  end.

(** [for x in v.items(): body(x)], where [v] may be [None]: calling
    [.items()] on it raises [AttributeError]. *)
Definition none_has_no_items : exn :=
  AttributeError "'NoneType' object has no attribute 'items'".

Definition for_items {V} (v : option (dict V)) (body : string * V -> M unit) : M unit :=
  match v with
  | Some d => for_each d body
  | None => raise none_has_no_items
  end.

(** [try: body / except Exception as e: handler(e)] *)
Definition try_except {A} (body : M A) (handler : exn -> M A) : M A :=
  fun s =>
    match body s with
    | (Return a, s') => (Return a, s')
    | (Raise e, s') => handler e s'
    end.

(** [try: body / finally: fin] *)
Definition try_finally {A} (body : M A) (fin : M unit) : M A :=
  fun s =>
    match body s with
    | (r, s') =>
        match fin s' with
        | (Return _, s'') => (r, s'')
        | (Raise e, s'') => (Raise e, s'')
        end
    end.

(** *** Row insertion *)

Definition next_id (ids : list Z) : Z :=
  match ids with
  | [] => 1
  | i :: rest => 1 + fold_right Z.max i rest
  end.

Definition insert_client (name : string) (d : Database) : result (Z * Database) :=
  if existsb (fun c => String.eqb (Client.name c) name) (clients d)
  then Raise (IntegrityError "UNIQUE constraint failed: clients.name")
  else
    let i := next_id (map Client.id (clients d)) in
    Return (i, mkDatabase (clients d ++ [Client.mk i name]) (computers d) (ports d)).

Definition insert_computer (c : NewComputer) (d : Database) : result (Z * Database) :=
  let 'Computer_ ip lat host cid := c in
  if existsb (fun m => String.eqb (Computer.ip_address m) ip) (computers d)
  then Raise (IntegrityError "UNIQUE constraint failed: computers.ip_address")
  else
    let i := next_id (map Computer.id (computers d)) in
    Return (i, mkDatabase (clients d) (computers d ++ [Computer.mk i ip lat host cid]) (ports d)).

Definition insert_port (p : NewPort) (d : Database) : Database :=
  let 'Port_ num svc mid := p in
  let i := next_id (map Port.id (ports d)) in
  mkDatabase (clients d) (computers d) (ports d ++ [Port.mk i num svc mid]).

Fixpoint insert_computers (l : list NewComputer) (d : Database) : result Database :=
  match l with
  | [] => Return d
  | c :: l' =>
      match insert_computer c d with
      | Return (_, d') => insert_computers l' d'
      | Raise e => Raise e
      end
  end.

Definition insert_ports (l : list NewPort) (d : Database) : Database :=
  fold_left (fun d p => insert_port p d) l d.

(** *** Session operations *)

(** [session.rollback()]; also the state in which a failed flush leaves the
    session. *)
Definition rolled_back (s : Session) : Session :=
  mkSession (committed s) (committed s) [] [].

Definition rollback : M unit := fun s => (Return tt, rolled_back s).

(** [session.close()] *)
Definition close : M unit := fun s => (Return tt, rolled_back s).

(** [session.flush()]: pending computers, then pending ports. *)
Definition flush : M unit :=
  fun s =>
    match insert_computers (new_computers s) (tx s) with
    | Return d =>
        (Return tt, mkSession (committed s) (insert_ports (new_ports s) d) [] [])
    | Raise e => (Raise e, rolled_back s)
    end.

(** [session.commit()] *)
Definition commit : M unit :=
  flush ;; fun s => (Return tt, mkSession (tx s) (tx s) [] []).

(** [session.add(client); session.flush()], returning [client.id].  The
    clients table is written first. *)
Definition add_client_flush (name : string) : M Z :=
  fun s =>
    match insert_client name (tx s) with
    | Return (i, d) =>
        (flush ;; ret i) (mkSession (committed s) d (new_computers s) (new_ports s))
    | Raise e => (Raise e, rolled_back s)
    end.

(** [session.add(computer); session.flush()], returning [computer.id].  The
    computer is the last one added, so it is written after the computers
    already pending and before the pending ports. *)
Definition add_computer_flush (c : NewComputer) : M Z :=
  fun s =>
    match insert_computers (new_computers s) (tx s) with
    | Return d =>
        match insert_computer c d with
        | Return (i, d') =>
            (Return i, mkSession (committed s) (insert_ports (new_ports s) d') [] [])
        | Raise e => (Raise e, rolled_back s)
        end
    | Raise e => (Raise e, rolled_back s)
    end.

(** [session.add(computer)] and [session.add(port)] without a flush. *)
Definition add_computer (c : NewComputer) : M unit :=
  fun s =>
    (Return tt, mkSession (committed s) (tx s) (new_computers s ++ [c]) (new_ports s)).

Definition add_port (p : NewPort) : M unit :=
  fun s =>
    (Return tt, mkSession (committed s) (tx s) (new_computers s) (new_ports s ++ [p])).

(** [session.query(Client).filter(Client.name == client_name).first()] *)
Definition query_client (client_name : string) : M (option Client.t) :=
  fun s =>
    (Return (find (fun c => String.eqb (Client.name c) client_name) (clients (tx s))), s).

(** [session.query(Computer).filter(Computer.ip_address == ip,
    Computer.client_id == client_id).first()] *)
Definition query_computer (ip : string) (client_id : Z) : M (option Computer.t) :=
  fun s =>
    (Return (find (fun m => String.eqb (Computer.ip_address m) ip
                            && (Computer.client_id m =? client_id)%Z)
                  (computers (tx s))), s).

(** [session.query(Port).filter(Port.computer_id == computer_id,
    Port.port_number == port).first()] *)
Definition query_port (computer_id : Z) (port : string) : M (option Port.t) :=
  fun s =>
    (Return (find (fun p => (Port.computer_id p =? computer_id)%Z
                            && String.eqb (Port.port_number p) port)
                  (ports (tx s))), s).

(** [session.query(Client).all()] *)
Definition query_clients : M (list Client.t) :=
  fun s => (Return (clients (tx s)), s).

(** The relationships [client.computers] and [computer.ports], loaded by
    foreign key. *)
Definition computers_of (d : Database) (client : Client.t) : list Computer.t :=
  filter (fun m => (Computer.client_id m =? Client.id client)%Z) (computers d).

Definition ports_of (d : Database) (computer : Computer.t) : list Port.t :=
  filter (fun p => (Port.computer_id p =? Computer.id computer)%Z) (ports d).

(** Attribute assignment on a loaded row: the UPDATE addresses the row by
    primary key.  The session hands the modified object to later queries, so
    the new value is visible at once. *)
Definition update_computers (f : Computer.t -> Computer.t) (pk : Z) (d : Database) : Database :=
  mkDatabase (clients d)
             (map (fun m => if (Computer.id m =? pk)%Z then f m else m) (computers d))
             (ports d).

Definition update_ports (f : Port.t -> Port.t) (pk : Z) (d : Database) : Database :=
  mkDatabase (clients d) (computers d)
             (map (fun p => if (Port.id p =? pk)%Z then f p else p) (ports d)).

Definition on_tx (f : Database -> Database) : M unit :=
  fun s => (Return tt, mkSession (committed s) (f (tx s)) (new_computers s) (new_ports s)).

(** [computer.latency = v] *)
Definition set_latency (computer : Computer.t) (v : option string) : M unit :=
  on_tx (update_computers
           (fun m => Computer.mk (Computer.id m) (Computer.ip_address m) v
                                 (Computer.hostname m) (Computer.client_id m))
           (Computer.id computer)).

(** [computer.hostname = v] *)
Definition set_hostname (computer : Computer.t) (v : option string) : M unit :=
  on_tx (update_computers
           (fun m => Computer.mk (Computer.id m) (Computer.ip_address m)
                                 (Computer.latency m) v (Computer.client_id m))
           (Computer.id computer)).

(** [port_entry.service_name = v] *)
Definition set_service_name (port_entry : Port.t) (v : string) : M unit :=
  on_tx (update_ports
           (fun p => Port.mk (Port.id p) (Port.port_number p) v (Port.computer_id p))
           (Port.id port_entry)).

(** [session.delete(client)] with [cascade="all, delete"] on both
    relationships: the client's computers are loaded, the ports of each of
    them are loaded, and every loaded row is deleted by primary key.  The
    deletes are issued by the flush of the [commit] that follows. *)
Definition is_in (pks : list Z) (pk : Z) : bool := existsb (Z.eqb pk) pks.

Definition delete_cascade (client : Client.t) (d : Database) : Database :=
  let cs := computers_of d client in
  let ps := flat_map (ports_of d) cs in
  mkDatabase
    (filter (fun c => negb (Client.id c =? Client.id client)%Z) (clients d))
    (filter (fun m => negb (is_in (map Computer.id cs) (Computer.id m))) (computers d))
    (filter (fun p => negb (is_in (map Port.id ps) (Port.id p))) (ports d)).

Definition delete (client : Client.t) : M unit := on_tx (delete_cascade client).

(** A route opens a session on the database and leaves the database as the
    session committed it. *)
Definition route {A} (body : M A) (d : Database) : result A * Database :=
  let (r, s) := body (SessionLocal d) in (r, committed s).

(** ** Routes *)

(** Python truthiness of [client_data.get("client")] and
    [client_data.get("computers")]. *)
Definition truthy_str (v : option string) : bool :=
  match v with
  | Some s => negb (String.eqb s EmptyString)
  | None => false
  end.

Definition truthy_dict {V} (v : option (dict V)) : bool :=
  match v with
  | Some (_ :: _) => true
  | _ => false
  end.

Definition already_exists (client_name : string) : string :=
  String.append "Client '" (String.append client_name "' already exists").

Definition create_computer (client_id : Z) (item : string * ComputerData.t) : M unit :=
  let (ip, computer_data) := item in
  computer_id <- add_computer_flush
                   (Computer_ ip
                              (get (ComputerData.latency computer_data))
                              (get (ComputerData.hostname computer_data))
                              client_id) ;;
  for_items (get_or (ComputerData.ports computer_data) (Some []))
            (fun port_service =>
               add_port (Port_ (fst port_service) (snd port_service) computer_id)).

Definition create_client (client_data : ClientData.t) : M unit :=
  let client_name := ClientData.client client_data in
  let computers := ClientData.computers client_data in
  if negb (truthy_str client_name) || negb (truthy_dict computers)
  then raise (HTTPException 400 (Detail "Invalid data format"))
  else
    let client_name := get_or client_name EmptyString in
    existing_client <- query_client client_name ;;
    match existing_client with
    | Some _ => raise (HTTPException 400 (Detail (already_exists client_name)))
    | None =>
        client_id <- add_client_flush client_name ;;
        for_each (get_or computers []) (create_computer client_id)
    end.

(** POST /clients/ *)
Definition create_clients (data : list ClientData.t) : Database -> result response * Database :=
  route
    (try_finally
       (try_except
          (for_each data create_client ;;
           commit ;;
           ret (Message "Clients and computers created successfully"))
          (fun e => rollback ;; raise (HTTPException 500 (Str e))))
       close).

Definition computer_view (d : Database) (computer : Computer.t) : ComputerView.t :=
  ComputerView.mk
    (Computer.ip_address computer)
    (Computer.latency computer)
    (Computer.hostname computer)
    (dict_of (map (fun port => (Port.port_number port, Port.service_name port))
                  (ports_of d computer))).

Definition client_view (d : Database) (client : Client.t) : ClientView.t :=
  ClientView.mk (Client.name client) (map (computer_view d) (computers_of d client)).

(** GET /clients/ *)
Definition get_all_clients : Database -> result response * Database :=
  route
    (try_finally
       (clients <- query_clients ;;
        match clients with
        | [] => ret (Message "No clients found")
        | _ :: _ => fun s => (Return (Listing (map (client_view (tx s)) clients)), s)
        end)
       close).

Definition updated_successfully (client_name : string) : string :=
  String.append "Client '" (String.append client_name "' updated successfully").

Definition upsert_port (computer : Computer.t) (port_service : string * string) : M unit :=
  let (port, service) := port_service in
  port_entry <- query_port (Computer.id computer) port ;;
  match port_entry with
  | Some port_entry => set_service_name port_entry service
  | None => add_port (Port_ port service (Computer.id computer))
  end.

Definition upsert_computer (client : Client.t) (item : string * ComputerData.t) : M unit :=
  let (ip, computer_data) := item in
  computer <- query_computer ip (Client.id client) ;;
  match computer with
  | Some computer =>
      set_latency computer
        (get_or (ComputerData.latency computer_data) (Computer.latency computer)) ;;
      set_hostname computer
        (get_or (ComputerData.hostname computer_data) (Computer.hostname computer)) ;;
      for_items (get_or (ComputerData.ports computer_data) (Some [])) (upsert_port computer)
  | None =>
      add_computer (Computer_ ip
                              (get (ComputerData.latency computer_data))
                              (get (ComputerData.hostname computer_data))
                              (Client.id client))
  end.

(** PUT /clients/{client_name} *)
Definition update_client (client_name : string) (data : UpdateData.t)
  : Database -> result response * Database :=
  route
    (try_finally
       (try_except
          (client <- query_client client_name ;;
           match client with
           | None => raise (HTTPException 404 (Detail "Client not found"))
           | Some client =>
               for_items (get_or (UpdateData.computers data) (Some []))
                         (upsert_computer client) ;;
               commit ;;
               ret (Message (updated_successfully client_name))
           end)
          (fun e => rollback ;; raise (HTTPException 500 (Str e))))
       close).

Definition deleted_successfully (client_name : string) : string :=
  String.append "Client '" (String.append client_name "' deleted successfully").

(** DELETE /clients/{client_name} *)
Definition delete_client (client_name : string) : Database -> result response * Database :=
  route
    (try_finally
       (try_except
          (client <- query_client client_name ;;
           match client with
           | None => raise (HTTPException 404 (Detail "Client not found"))
           | Some client =>
               delete client ;;
               commit ;;
               ret (Message (deleted_successfully client_name))
           end)
          (fun e => rollback ;; raise (HTTPException 500 (Str e))))
       close).

(** ** Well-formed requests and consistent databases *)

(** The keys of a Python dict are pairwise distinct. *)
Definition wf_dict {V} (d : dict V) : Prop := NoDup (keys d).

Definition wf_computers (computers : option (dict ComputerData.t)) : Prop :=
  wf_dict (get_or computers []) /\
  Forall (fun item => wf_dict (get_or (get (ComputerData.ports (snd item))) []))
         (get_or computers []).

Definition wf_data (data : list ClientData.t) : Prop :=
  Forall (fun client_data => wf_computers (ClientData.computers client_data)) data.

(** The composite identity of a port row, and of a pending port. *)
Definition port_key (p : Port.t) : Z * string := (Port.computer_id p, Port.port_number p).

Definition new_port_key (p : NewPort) : Z * string :=
  let 'Port_ num _ mid := p in (mid, num).

Definition new_computer_ip (c : NewComputer) : string :=
  let 'Computer_ ip _ _ _ := c in ip.

Definition new_computer_client (c : NewComputer) : Z :=
  let 'Computer_ _ _ _ cid := c in cid.

(** What a port row holds besides its own id. *)
Definition port_content (p : Port.t) : Z * string * string :=
  (Port.computer_id p, Port.port_number p, Port.service_name p).

Definition new_port_content (p : NewPort) : Z * string * string :=
  let 'Port_ num svc mid := p in (mid, num, svc).

(** What the schema declares (primary keys, the two UNIQUE columns), the
    ownership expressed by the two foreign keys, and the composite identity
    of ports. *)
Record consistent (d : Database) : Prop := mkConsistent {
  client_ids_unique : NoDup (map Client.id (clients d));
  names_unique : NoDup (map Client.name (clients d));
  computer_ids_unique : NoDup (map Computer.id (computers d));
  ips_unique : NoDup (map Computer.ip_address (computers d));
  port_ids_unique : NoDup (map Port.id (ports d));
  computers_owned :
    forall m, In m (computers d) -> In (Computer.client_id m) (map Client.id (clients d));
  ports_owned :
    forall p, In p (ports d) -> In (Port.computer_id p) (map Computer.id (computers d));
  port_keys_unique : NoDup (map port_key (ports d))
}.

(** The databases the three writing routes can produce from the empty one. *)
Inductive reachable : Database -> Prop :=
| reachable_empty : reachable empty_db
| reachable_create d data :
    reachable d -> wf_data data -> reachable (snd (create_clients data d))
| reachable_update d client_name data :
    reachable d -> wf_computers (get (UpdateData.computers data)) ->
    reachable (snd (update_client client_name data d))
| reachable_delete d client_name :
    reachable d -> reachable (snd (delete_client client_name d)).

(** The faults the routes raise themselves -- lines 71, 76, 143 and 186 --
    and the one the storage layer raises on a UNIQUE column.  None of them
    reaches the caller as it is: the [except] clause of every writing route
    re-raises an exception [e] as [HTTPException(500, str(e))]. *)
Definition surfaced (e : exn) : exn := HTTPException 500 (Str e).


Inductive NotFound : exn -> Prop :=
| NotFound_client :
    NotFound (HTTPException 404 (Detail "Client not found")).



(** Whether the value under an address holds null for [ports]. *)
Definition ports_null (computer_data : ComputerData.t) : bool :=
  match ComputerData.ports computer_data with
  | Some None => true
  | _ => false
  end.


(** What the session would hold after a flush of its pending ports. *)
Definition view (s : Session) : Database := insert_ports (new_ports s) (tx s).

(** A computation that leaves the committed database alone. *)
Definition keeps_committed {A} (m : M A) : Prop :=
  forall s, committed (snd (m s)) = committed s.

(** ** The bulk-create loop as a function of the database

    [create_clients] flushes every client and every computer as soon as it is
    added and leaves only ports pending, which no query of the route looks
    at.  Its loop is therefore a function of the database as it would be
    after a flush; [create_loop_view] proves the two agree. *)

Fixpoint foldM {X} (f : X -> Database -> result Database) (l : list X) (d : Database)
  : result Database :=
  match l with
  | [] => Return d
  | x :: l' =>
      match f x d with
      | Return d' => foldM f l' d'
      | Raise e => Raise e
      end
  end.

Definition new_ports_of (computer_id : Z) (ports : dict string) : list NewPort :=
  map (fun port_service => Port_ (fst port_service) (snd port_service) computer_id) ports.

Definition new_computer_of (client_id : Z) (item : string * ComputerData.t) : NewComputer :=
  Computer_ (fst item)
            (get (ComputerData.latency (snd item)))
            (get (ComputerData.hostname (snd item)))
            client_id.

Definition db_create_computer (client_id : Z) (item : string * ComputerData.t) (d : Database)
  : result Database :=
  match insert_computer (new_computer_of client_id item) d with
  | Return (i, d') =>
      match get_or (ComputerData.ports (snd item)) (Some []) with
      | Some ports => Return (insert_ports (new_ports_of i ports) d')
      | None => Raise none_has_no_items
      end
  | Raise e => Raise e
  end.

Definition db_create_client (client_data : ClientData.t) (d : Database) : result Database :=
  let client_name := ClientData.client client_data in
  let computers := ClientData.computers client_data in
  if negb (truthy_str client_name) || negb (truthy_dict computers)
  then Raise (HTTPException 400 (Detail "Invalid data format"))
  else
    let client_name := get_or client_name EmptyString in
    match find (fun c => String.eqb (Client.name c) client_name) (clients d) with
    | Some _ => Raise (HTTPException 400 (Detail (already_exists client_name)))
    | None =>
        match insert_client client_name d with
        | Return (i, d') => foldM (db_create_computer i) (get_or computers []) d'
        | Raise e => Raise e
        end
    end.

(** ** Sample requests and databases

    The example of the specification: client acme with one computer that
    listens on ports 80 and 443. *)

Definition web1 : ComputerData.t :=
  ComputerData.mk (Some (Some "2ms")) (Some (Some "web1"))
                  (Some (Some [("80", "http"); ("443", "https")])).

Definition acme : ClientData.t :=
  ClientData.mk (Some "acme") (Some [("10.0.0.1", web1)]).

Definition db_acme : Database := snd (create_clients [acme] empty_db).

(** A patch for an address no client has, with one port. *)
Definition patch_new_host : UpdateData.t :=
  UpdateData.mk
    (Some (Some [("10.0.0.2",
                  ComputerData.mk (Some (Some "9ms")) (Some (Some "db1"))
                                  (Some (Some [("22", "ssh")])))])).

(** ** The bulk-create input in the shape of the listing

    [create_clients] takes the computers of a client as a mapping from IP
    address to attributes, [get_all_clients] returns them as a sequence of
    records that carry the address; a missing or null attribute is listed as
    null and a missing port mapping as an empty one. *)

Definition listed_computer (item : string * ComputerData.t) : ComputerView.t :=
  ComputerView.mk (fst item)
                  (get (ComputerData.latency (snd item)))
                  (get (ComputerData.hostname (snd item)))
                  (get_or (get (ComputerData.ports (snd item))) []).

Definition listed_client (client_data : ClientData.t) : ClientView.t :=
  ClientView.mk (get_or (ClientData.client client_data) EmptyString)
                (map listed_computer (get_or (ClientData.computers client_data) [])).

(** ** The partial-update loop as seen from the database it starts on

    The loop of [update_client] only assigns [latency], [hostname] and
    [service_name] on rows it has found, and leaves everything it creates
    pending until the [commit].  The columns its queries filter on never
    change under it, so which objects end up pending is determined by the
    database the route starts on. *)

Definition computer_key (m : Computer.t) : Z * string * Z :=
  (Computer.id m, Computer.ip_address m, Computer.client_id m).

Definition port_ident (p : Port.t) : Z * Z * string :=
  (Port.id p, Port.computer_id p, Port.port_number p).

Definition same_keys (d d' : Database) : Prop :=
  clients d' = clients d /\
  map computer_key (computers d') = map computer_key (computers d) /\
  map port_ident (ports d') = map port_ident (ports d).

Definition computer_of (d : Database) (client_id : Z) (ip : string) : option Computer.t :=
  find (fun m => String.eqb (Computer.ip_address m) ip
                 && (Computer.client_id m =? client_id)%Z)
       (computers d).

Definition port_of (d : Database) (computer_id : Z) (port : string) : option Port.t :=
  find (fun p => (Port.computer_id p =? computer_id)%Z
                 && String.eqb (Port.port_number p) port)
       (ports d).

Definition absent {A} (o : option A) : bool :=
  match o with
  | None => true
  | Some _ => false
  end.

Definition pending_ports_for (d : Database) (computer_id : Z) (ports : dict string)
  : list NewPort :=
  new_ports_of computer_id
    (filter (fun port_service => absent (port_of d computer_id (fst port_service))) ports).

Definition pending_computers (d : Database) (client : Client.t)
           (items : dict ComputerData.t) : list NewComputer :=
  map (new_computer_of (Client.id client))
      (filter (fun item => absent (computer_of d (Client.id client) (fst item))) items).

Definition pending_ports (d : Database) (client : Client.t)
           (items : dict ComputerData.t) : list NewPort :=
  flat_map (fun item =>
              match computer_of d (Client.id client) (fst item) with
              | Some m =>
                  pending_ports_for d (Computer.id m)
                                    (get_or (get (ComputerData.ports (snd item))) [])
              | None => []
              end)
           items.

(** No computer of the patch that the client already has holds null for
    [ports]: line 153 reads [ports] only for a computer line 147 has found. *)
Definition patch_typed (d : Database) (client : Client.t)
           (items : dict ComputerData.t) : bool :=
  forallb (fun item => absent (computer_of d (Client.id client) (fst item))
                       || negb (ports_null (snd item)))
          items.

(** ** What list-all shows, and what belongs to a client *)

Definition listing (d : Database) : list ClientView.t := map (client_view d) (clients d).

Definition owned_by (client : Client.t) (m : Computer.t) : bool :=
  (Computer.client_id m =? Client.id client)%Z.

(** The port belongs to a computer of the client. *)
Definition under (d : Database) (client : Client.t) (p : Port.t) : bool :=
  existsb (fun m => owned_by client m && (Port.computer_id p =? Computer.id m)%Z)
          (computers d).

(** An entry that passes the check at the head of the bulk-create loop. *)
Definition valid_entry (client_data : ClientData.t) : bool :=
  truthy_str (ClientData.client client_data)
  && truthy_dict (ClientData.computers client_data).

(** The row a patch with only a latency leaves in place of [m]. *)
Definition with_latency (v : option string) (m : Computer.t) : Computer.t :=
  Computer.mk (Computer.id m) (Computer.ip_address m) v
              (Computer.hostname m) (Computer.client_id m).

(** A second client for the examples, and entries the loop rejects. *)
Definition globex : ClientData.t :=
  ClientData.mk (Some "globex")
                (Some [("10.0.0.9", ComputerData.mk None None (Some (Some [("22", "ssh")])))]).

Definition globex_without_computers : ClientData.t :=
  ClientData.mk (Some "globex") (Some []).

(** The database that holds acme and globex, and a third client that asks
    for acme's address. *)
Definition db_two : Database := snd (create_clients [acme; globex] empty_db).



(** The row a patch leaves in place of a port whose number it repeats. *)
Definition with_service_name (v : string) (p : Port.t) : Port.t :=
  Port.mk (Port.id p) (Port.port_number p) v (Port.computer_id p).

Definition overwrite_service (p : Port.t) (v : string) (d : Database) : Database :=
  mkDatabase (clients d) (computers d)
             (map (fun q => if (Port.id q =? Port.id p)%Z then with_service_name v q else q)
                  (ports d)).

(** ** The application as a whole *)

(** GET / *)
Definition read_root : Database -> result response * Database :=
  fun d =>
    (Return (Message "Bienvenue sur l'API FastAPI. Consultez /docs pour la documentation."),
     d).

(** The five routes registered on [app]. *)
Inductive request :=
| GetRoot
| PostClients (data : list ClientData.t)
| GetClients
| PutClient (client_name : string) (data : UpdateData.t)
| DeleteClient (client_name : string).

Definition serve (r : request) : Database -> result response * Database :=
  match r with
  | GetRoot => read_root
  | PostClients data => create_clients data
  | GetClients => get_all_clients
  | PutClient client_name data => update_client client_name data
  | DeleteClient client_name => delete_client client_name
  end.

(** The row a patch without ports leaves in place of a computer it names. *)
Definition merge_fields (computer_data : ComputerData.t) (m : Computer.t) : Computer.t :=
  Computer.mk (Computer.id m) (Computer.ip_address m)
              (get_or (ComputerData.latency computer_data) (Computer.latency m))
              (get_or (ComputerData.hostname computer_data) (Computer.hostname m))
              (Computer.client_id m).

(** The client name and the addresses an entry of the bulk-create input
    asks for. *)
Definition entry_name (client_data : ClientData.t) : string :=
  get_or (ClientData.client client_data) EmptyString.


(** The addresses and the ports of a listing, client after client. *)
Definition listed_ips (l : list ClientView.t) : list string :=
  flat_map (fun v => map ComputerView.ip_address (ClientView.computers v)) l.

Definition listed_ports (l : list ClientView.t) : list (string * string * string) :=
  flat_map (fun v =>
              flat_map (fun cv =>
                          map (fun port_service =>
                                 (ComputerView.ip_address cv, fst port_service,
                                  snd port_service))
                              (ComputerView.ports cv))
                       (ClientView.computers v))
           l.

(** The address of the computer a port row points to. *)
Definition address_of (d : Database) (p : Port.t) : string :=
  match find (fun m => (Computer.id m =? Port.computer_id p)%Z) (computers d) with
  | Some m => Computer.ip_address m
  | None => EmptyString
  end.

Definition stored_port (d : Database) (p : Port.t) : string * string * string :=
  (address_of d p, Port.port_number p, Port.service_name p).

(** The rows of [t] that do not belong to the client are those of [d]. *)
Definition untouched (client : Client.t) (d t : Database) : Prop :=
  filter (fun m => negb (owned_by client m)) (computers t)
  = filter (fun m => negb (owned_by client m)) (computers d) /\
  filter (fun p => negb (under d client p)) (ports t)
  = filter (fun p => negb (under d client p)) (ports d).

(** * Properties *)

(** ** The session monad *)

Lemma bind_Return A B (m : M A) (k : A -> M B) s a s' :
  m s = (Return a, s') -> bind m k s = k a s'.
Proof. intros H. unfold bind. rewrite H. reflexivity. Qed.

Lemma bind_Raise A B (m : M A) (k : A -> M B) s e s' :
  m s = (Raise e, s') -> bind m k s = (Raise e, s').
Proof. intros H. unfold bind. rewrite H. reflexivity. Qed.

Lemma keeps_bind A B (m : M A) (k : A -> M B) :
  keeps_committed m -> (forall a, keeps_committed (k a)) -> keeps_committed (bind m k).
Proof.
  intros Hm Hk s. unfold bind. specialize (Hm s).
  destruct (m s) as [[a|e] s1]; simpl in *.
  - rewrite Hk. exact Hm.
  - exact Hm.
Qed.

Lemma keeps_for_each X (l : list X) (body : X -> M unit) :
  (forall x, keeps_committed (body x)) -> keeps_committed (for_each l body).
Proof.
  intros Hb. induction l as [|x l IH]; simpl.
  - intros s. reflexivity.
  - apply keeps_bind; auto.
Qed.

Lemma keeps_for_items V (v : option (dict V)) (body : string * V -> M unit) :
  (forall x, keeps_committed (body x)) -> keeps_committed (for_items v body).
Proof.
  intros Hb. destruct v as [l|]; cbn [for_items].
  - apply keeps_for_each. exact Hb.
  - intros s. reflexivity.
Qed.

Lemma keeps_ret A (a : A) : keeps_committed (ret a).
Proof. intros s. reflexivity. Qed.

Lemma keeps_raise A e : keeps_committed (@raise A e).
Proof. intros s. reflexivity. Qed.

Lemma keeps_on_tx f : keeps_committed (on_tx f).
Proof. intros s. reflexivity. Qed.

Lemma keeps_add_port p : keeps_committed (add_port p).
Proof. intros s. reflexivity. Qed.

Lemma keeps_add_computer c : keeps_committed (add_computer c).
Proof. intros s. reflexivity. Qed.

Lemma keeps_flush : keeps_committed flush.
Proof.
  intros s. unfold flush.
  destruct (insert_computers (new_computers s) (tx s)); reflexivity.
Qed.

Lemma keeps_add_client_flush n : keeps_committed (add_client_flush n).
Proof.
  intros s. unfold add_client_flush.
  destruct (insert_client n (tx s)) as [[i d]|e]; [|reflexivity].
  assert (H : keeps_committed (flush ;; ret i))
    by (apply keeps_bind; [apply keeps_flush | intros; apply keeps_ret]).
  rewrite H. reflexivity.
Qed.

Lemma keeps_add_computer_flush c : keeps_committed (add_computer_flush c).
Proof.
  intros s. unfold add_computer_flush.
  destruct (insert_computers (new_computers s) (tx s)) as [d|e]; [|reflexivity].
  destruct (insert_computer c d) as [[i d']|e]; reflexivity.
Qed.

Lemma keeps_create_computer cid item : keeps_committed (create_computer cid item).
Proof.
  destruct item as [ip cd]. unfold create_computer.
  apply keeps_bind; [apply keeps_add_computer_flush|].
  intros i. apply keeps_for_items. intros x. apply keeps_add_port.
Qed.

Lemma keeps_create_client client_data : keeps_committed (create_client client_data).
Proof.
  unfold create_client.
  destruct (negb _ || negb _); [apply keeps_raise|].
  apply keeps_bind; [intros s; reflexivity|].
  intros [c|]; [apply keeps_raise|].
  apply keeps_bind; [apply keeps_add_client_flush|].
  intros i. apply keeps_for_each. intros x. apply keeps_create_computer.
Qed.

Lemma keeps_upsert_port m item : keeps_committed (upsert_port m item).
Proof.
  destruct item as [port service]. unfold upsert_port.
  apply keeps_bind; [intros s; reflexivity|].
  intros [pe|]; [apply keeps_on_tx | apply keeps_add_port].
Qed.

Lemma keeps_upsert_computer c item : keeps_committed (upsert_computer c item).
Proof.
  destruct item as [ip cd]. unfold upsert_computer.
  apply keeps_bind; [intros s; reflexivity|].
  intros [m|]; [|apply keeps_add_computer].
  apply keeps_bind; [apply keeps_on_tx|]. intros _.
  apply keeps_bind; [apply keeps_on_tx|]. intros _.
  apply keeps_for_items. intros x. apply keeps_upsert_port.
Qed.

(** A route whose body is wrapped in the [try/except/finally] of app.py:
    a returned value is passed on, an exception is re-raised with status 500;
    either way the database is what the session committed. *)
Lemma route_guarded A (body : M A) d :
  route (try_finally
           (try_except body (fun e => rollback ;; raise (HTTPException 500 (Str e))))
           close) d
  = match body (SessionLocal d) with
    | (Return a, s) => (Return a, committed s)
    | (Raise e, s) => (Raise (surfaced e), committed s)
    end.
Proof.
  unfold route, try_finally, try_except.
  destruct (body (SessionLocal d)) as [[a|e] s]; reflexivity.
Qed.

(** A body that ends in [commit] after a loop that does not commit. *)
Lemma commit_after A (loop : M unit) (a : A) s :
  (loop ;; commit ;; ret a) s
  = match loop s with
    | (Return _, s1) =>
        match insert_computers (new_computers s1) (tx s1) with
        | Return d' =>
            let d'' := insert_ports (new_ports s1) d' in
            (Return a, mkSession d'' d'' [] [])
        | Raise e => (Raise e, rolled_back s1)
        end
    | (Raise e, s1) => (Raise e, s1)
    end.
Proof.
  unfold bind at 1.
  destruct (loop s) as [[[]|e] s1]; [|reflexivity].
  unfold commit, bind, flush, ret.
  destruct (insert_computers (new_computers s1) (tx s1)); reflexivity.
Qed.

(** ** Pending ports and the flushed view *)

Lemma insert_ports_app l1 l2 d :
  insert_ports (l1 ++ l2) d = insert_ports l2 (insert_ports l1 d).
Proof. unfold insert_ports. apply fold_left_app. Qed.

Lemma clients_insert_ports l d : clients (insert_ports l d) = clients d.
Proof.
  revert d. induction l as [|[num svc mid] l IH]; intros d; [reflexivity|].
  simpl. change (clients (insert_ports l (insert_port (Port_ num svc mid) d)) = clients d).
  rewrite IH. reflexivity.
Qed.

Lemma computers_insert_ports l d : computers (insert_ports l d) = computers d.
Proof.
  revert d. induction l as [|[num svc mid] l IH]; intros d; [reflexivity|].
  simpl. change (computers (insert_ports l (insert_port (Port_ num svc mid) d)) = computers d).
  rewrite IH. reflexivity.
Qed.

Lemma insert_ports_with_clients l d cs :
  insert_ports l (mkDatabase cs (computers d) (ports d))
  = mkDatabase cs (computers d) (ports (insert_ports l d)).
Proof.
  revert d. induction l as [|[num svc mid] l IH]; intros d; [reflexivity|].
  simpl. exact (IH (insert_port (Port_ num svc mid) d)).
Qed.

Lemma insert_ports_with_computers l d ms :
  insert_ports l (mkDatabase (clients d) ms (ports d))
  = mkDatabase (clients d) ms (ports (insert_ports l d)).
Proof.
  revert d. induction l as [|[num svc mid] l IH]; intros d; [reflexivity|].
  simpl. exact (IH (insert_port (Port_ num svc mid) d)).
Qed.

Lemma insert_client_view n l d :
  insert_client n (insert_ports l d)
  = match insert_client n d with
    | Return (i, d') => Return (i, insert_ports l d')
    | Raise e => Raise e
    end.
Proof.
  unfold insert_client. rewrite clients_insert_ports, computers_insert_ports.
  destruct (existsb _ (clients d)); [reflexivity|].
  rewrite insert_ports_with_clients. reflexivity.
Qed.

Lemma insert_computer_view c l d :
  insert_computer c (insert_ports l d)
  = match insert_computer c d with
    | Return (i, d') => Return (i, insert_ports l d')
    | Raise e => Raise e
    end.
Proof.
  destruct c as [ip lat host cid]. unfold insert_computer.
  rewrite clients_insert_ports, computers_insert_ports.
  destruct (existsb _ (computers d)); [reflexivity|].
  rewrite insert_ports_with_computers. reflexivity.
Qed.

Lemma for_each_add_port mid (items : dict string) s :
  for_each items (fun port_service =>
                    add_port (Port_ (fst port_service) (snd port_service) mid)) s
  = (Return tt, mkSession (committed s) (tx s) (new_computers s)
                          (new_ports s ++ new_ports_of mid items)).
Proof.
  revert s. induction items as [|[port service] items IH]; intros s; simpl.
  - rewrite app_nil_r. destruct s; reflexivity.
  - unfold bind, add_port at 1. rewrite IH. simpl.
    rewrite <- app_assoc. reflexivity.
Qed.

(** One computer of the bulk-create loop, seen through [view]. *)
Lemma create_computer_view cid item s :
  new_computers s = [] ->
  match create_computer cid item s with
  | (Return _, s') =>
      new_computers s' = [] /\ db_create_computer cid item (view s) = Return (view s')
  | (Raise e, _) => db_create_computer cid item (view s) = Raise e
  end.
Proof.
  intros Hnew. destruct item as [ip cd].
  unfold create_computer, db_create_computer, new_computer_of, view. cbn [fst snd].
  rewrite insert_computer_view.
  unfold bind, add_computer_flush. rewrite Hnew. cbn [insert_computers].
  destruct (insert_computer _ (tx s)) as [[i d']|e]; [|reflexivity].
  destruct (get_or (ComputerData.ports cd) (Some [])) as [P|]; cbn [for_items];
    [|reflexivity].
  rewrite for_each_add_port. cbn [new_computers new_ports tx app]. split; reflexivity.
Qed.

Lemma for_each_view X (body : X -> M unit) (f : X -> Database -> result Database) :
  (forall x s, new_computers s = [] ->
     match body x s with
     | (Return _, s') => new_computers s' = [] /\ f x (view s) = Return (view s')
     | (Raise e, _) => f x (view s) = Raise e
     end) ->
  forall l s, new_computers s = [] ->
    match for_each l body s with
    | (Return _, s') => new_computers s' = [] /\ foldM f l (view s) = Return (view s')
    | (Raise e, _) => foldM f l (view s) = Raise e
    end.
Proof.
  intros Hstep l. induction l as [|x l IH]; intros s Hs; simpl.
  - auto.
  - unfold bind. specialize (Hstep x s Hs).
    destruct (body x s) as [[[]|e] s1].
    + destruct Hstep as [Hs1 Hf]. rewrite Hf. apply IH. exact Hs1.
    + rewrite Hstep. reflexivity.
Qed.

Lemma create_client_view client_data s :
  new_computers s = [] ->
  match create_client client_data s with
  | (Return _, s') =>
      new_computers s' = [] /\ db_create_client client_data (view s) = Return (view s')
  | (Raise e, _) => db_create_client client_data (view s) = Raise e
  end.
Proof.
  intros Hnew. unfold create_client, db_create_client.
  destruct (negb _ || negb _); [reflexivity|].
  unfold bind at 1, query_client.
  replace (clients (view s)) with (clients (tx s))
    by (unfold view; now rewrite clients_insert_ports).
  destruct (find _ (clients (tx s))); [reflexivity|].
  change (view s) with (insert_ports (new_ports s) (tx s)).
  rewrite insert_client_view.
  unfold bind at 1, add_client_flush.
  destruct (insert_client _ (tx s)) as [[i d']|e]; [|reflexivity].
  unfold bind at 1, flush, ret. simpl. rewrite Hnew. simpl.
  apply (for_each_view (create_computer i) (db_create_computer i)
           (create_computer_view i)).
  reflexivity.
Qed.

Lemma create_loop_view data s :
  new_computers s = [] ->
  match for_each data create_client s with
  | (Return _, s') =>
      new_computers s' = [] /\ foldM db_create_client data (view s) = Return (view s')
  | (Raise e, _) => foldM db_create_client data (view s) = Raise e
  end.
Proof. apply for_each_view. apply create_client_view. Qed.

(** [create_clients] commits what the loop built, or nothing. *)
Lemma create_clients_run data d :
  create_clients data d
  = match foldM db_create_client data d with
    | Return d' => (Return (Message "Clients and computers created successfully"), d')
    | Raise e => (Raise (surfaced e), d)
    end.
Proof.
  unfold create_clients. rewrite route_guarded, commit_after.
  pose proof (create_loop_view data (SessionLocal d) eq_refl) as H.
  pose proof (keeps_for_each data create_client keeps_create_client (SessionLocal d)) as K.
  change (view (SessionLocal d)) with d in H.
  destruct (for_each data create_client (SessionLocal d)) as [[[]|e] s1]; simpl in K.
  - destruct H as [Hnew Hf]. rewrite Hf, Hnew. reflexivity.
  - rewrite H, K. reflexivity.
Qed.

(** ** What each route commits *)

Lemma find_client_In n (l : list Client.t) :
  In n (map Client.name l) ->
  exists c, find (fun c => String.eqb (Client.name c) n) l = Some c /\ Client.name c = n.
Proof.
  induction l as [|c l IH]; simpl; [contradiction|].
  intros [H|H].
  - exists c. rewrite H, String.eqb_refl. auto.
  - destruct (String.eqb_spec (Client.name c) n) as [E|E]; eauto.
Qed.

Lemma find_client_None n (l : list Client.t) :
  ~ In n (map Client.name l) ->
  find (fun c => String.eqb (Client.name c) n) l = None.
Proof.
  induction l as [|c l IH]; simpl; [reflexivity|].
  intros H. destruct (String.eqb_spec (Client.name c) n) as [E|E]; [tauto|].
  apply IH. tauto.
Qed.

Lemma update_client_run client_name data d :
  update_client client_name data d
  = match find (fun c => String.eqb (Client.name c) client_name) (clients d) with
    | None => (Raise (surfaced (HTTPException 404 (Detail "Client not found"))), d)
    | Some client =>
        match get_or (UpdateData.computers data) (Some []) with
        | None => (Raise (surfaced none_has_no_items), d)
        | Some computers =>
            match for_each computers (upsert_computer client) (SessionLocal d) with
            | (Return _, s1) =>
                match insert_computers (new_computers s1) (tx s1) with
                | Return d' =>
                    (Return (Message (updated_successfully client_name)),
                     insert_ports (new_ports s1) d')
                | Raise e => (Raise (surfaced e), d)
                end
            | (Raise e, _) => (Raise (surfaced e), d)
            end
        end
    end.
Proof.
  unfold update_client. rewrite route_guarded.
  unfold bind at 1, query_client. cbn [SessionLocal tx].
  destruct (find _ (clients d)) as [c|]; [|reflexivity].
  rewrite commit_after.
  destruct (get_or (UpdateData.computers data) (Some [])) as [computers|];
    cbn [for_items]; [|reflexivity].
  pose proof (keeps_for_each computers (upsert_computer c)
                (keeps_upsert_computer c) (SessionLocal d)) as K.
  destruct (for_each computers (upsert_computer c) (SessionLocal d)) as [[[]|e] s1];
    simpl in K.
  - destruct (insert_computers (new_computers s1) (tx s1)); [reflexivity|].
    cbn [rolled_back committed]. rewrite K. reflexivity.
  - rewrite K. reflexivity.
Qed.

Lemma delete_client_run client_name d :
  delete_client client_name d
  = match find (fun c => String.eqb (Client.name c) client_name) (clients d) with
    | None => (Raise (surfaced (HTTPException 404 (Detail "Client not found"))), d)
    | Some client =>
        (Return (Message (deleted_successfully client_name)), delete_cascade client d)
    end.
Proof.
  unfold delete_client. rewrite route_guarded.
  unfold bind at 1, query_client. cbn [SessionLocal tx].
  destruct (find _ (clients d)) as [c|]; reflexivity.
Qed.

Lemma get_all_clients_run d :
  get_all_clients d
  = (Return match clients d with
            | [] => Message "No clients found"
            | _ :: _ => Listing (map (client_view d) (clients d))
            end, d).
Proof.
  unfold get_all_clients, route, try_finally, bind, query_clients. cbn [SessionLocal tx].
  destruct (clients d); reflexivity.
Qed.

(** A fault of a writing route leaves the database as it was. *)
Lemma create_clients_atomic data d e d' :
  create_clients data d = (Raise e, d') -> d' = d.
Proof.
  rewrite create_clients_run. destruct (foldM db_create_client data d); congruence.
Qed.

Lemma update_client_atomic client_name data d e d' :
  update_client client_name data d = (Raise e, d') -> d' = d.
Proof.
  rewrite update_client_run.
  destruct (find _ (clients d)); [|congruence].
  destruct (get_or (UpdateData.computers data) (Some [])) as [computers|]; [|congruence].
  destruct (for_each computers _ _) as [[[]|e1] s1]; [|congruence].
  destruct (insert_computers _ _); congruence.
Qed.

Lemma delete_client_atomic client_name d e d' :
  delete_client client_name d = (Raise e, d') -> d' = d.
Proof.
  rewrite delete_client_run. destruct (find _ (clients d)); congruence.
Qed.

(** ** list-all *)

(** C5, as the code has it: [get_all_clients] never raises and never writes;
    it answers with one tree per client when there are clients, and with the
    message "No clients found" -- not with an empty sequence -- when there are
    none. *)
Theorem get_all_clients_total d :
  exists r,
    get_all_clients d = (Return r, d) /\
    (clients d = [] -> r = Message "No clients found") /\
    (clients d <> [] -> r = Listing (map (client_view d) (clients d))).
Proof.
  rewrite get_all_clients_run. eexists. split; [reflexivity|].
  destruct (clients d); split; congruence.
Qed.

(** C5 as stated fails on the empty database: the answer is a message, not
    the empty sequence of client trees. *)
Lemma get_all_clients_empty_is_message :
  clients empty_db = [] /\
  get_all_clients empty_db = (Return (Message "No clients found"), empty_db) /\
  fst (get_all_clients empty_db) <> Return (Listing []).
Proof. repeat split. discriminate. Qed.

(** ** partial-update *)

(** C10: on an existing client, a patch without a [computers] key, or with
    an empty one, is answered with the confirmation message and changes
    nothing. *)
Theorem update_client_without_computers client_name data d :
  In client_name (map Client.name (clients d)) ->
  UpdateData.computers data = None \/ UpdateData.computers data = Some (Some []) ->
  update_client client_name data d
  = (Return (Message (updated_successfully client_name)), d).
Proof.
  intros Hin Hdata. rewrite update_client_run.
  destruct (find_client_In _ _ Hin) as (c & Hc & _). rewrite Hc.
  destruct Hdata as [H|H]; rewrite H; reflexivity.
Qed.

(** The two patches on the database of the example. *)
Lemma update_client_without_computers_witness :
  update_client "acme" (UpdateData.mk None) db_acme
  = (Return (Message (updated_successfully "acme")), db_acme)
  /\ update_client "acme" (UpdateData.mk (Some (Some []))) db_acme
  = (Return (Message (updated_successfully "acme")), db_acme).
Proof.
  split; apply update_client_without_computers;
    solve [ vm_compute; auto | simpl; auto ].
Defined.

(** C2 at a failing input: acme exists, no computer has address 10.0.0.2,
    and the patch gives that address a latency, a hostname and port 22.  The
    route reports success and creates the computer, but no port row: the
    ports table is the one it started from, and the listing shows the new
    computer with an empty port mapping. *)
Theorem update_client_new_computer_drops_ports :
  let (r, d) := update_client "acme" patch_new_host db_acme in
  r = Return (Message "Client 'acme' updated successfully") /\
  computers d
  = computers db_acme ++ [Computer.mk 2 "10.0.0.2" (Some "9ms") (Some "db1") 1] /\
  ports d = ports db_acme /\
  ports_of d (Computer.mk 2 "10.0.0.2" (Some "9ms") (Some "db1") 1) = [].
Proof. vm_compute. repeat split. Qed.

(** C7 at a failing input: the same patch, applied a second time, finds the
    computer it created the first time and only then adds port 22, so the
    second application changes the database again. *)
Theorem update_client_twice_differs :
  let (r1, d1) := update_client "acme" patch_new_host db_acme in
  let (r2, d2) := update_client "acme" patch_new_host d1 in
  r1 = Return (Message "Client 'acme' updated successfully") /\
  r2 = Return (Message "Client 'acme' updated successfully") /\
  ports d1 = ports db_acme /\
  ports d2 = ports db_acme ++ [Port.mk 3 "22" "ssh" 2] /\
  d2 <> d1.
Proof. vm_compute. repeat split. discriminate. Qed.

(** ** Lists, ids and keys *)

Lemma fold_max_above (l : list Z) x i : In i (x :: l) -> i <= fold_right Z.max x l.
Proof.
  induction l as [|y l IH]; simpl.
  - intros [H|[]]. lia.
  - intros [H|[H|H]].
    + assert (i <= fold_right Z.max x l) by (apply IH; left; exact H). lia.
    + lia.
    + assert (i <= fold_right Z.max x l) by (apply IH; right; exact H). lia.
Qed.

Lemma next_id_above ids i : In i ids -> i < next_id ids.
Proof.
  destruct ids as [|x l]; [contradiction|].
  intros H. apply fold_max_above in H. unfold next_id. lia.
Qed.

Lemma next_id_fresh ids : ~ In (next_id ids) ids.
Proof. intros H. apply next_id_above in H. lia. Qed.

Lemma NoDup_snoc A (l : list A) x : NoDup l -> ~ In x l -> NoDup (l ++ [x]).
Proof.
  intros Hl Hx. apply NoDup_app; [exact Hl | repeat constructor; intros [] |].
  intros a Ha [E|[]]. subst. contradiction.
Qed.

Lemma NoDup_map_filter A B (g : A -> B) f (l : list A) :
  NoDup (map g l) -> NoDup (map g (filter f l)).
Proof.
  induction l as [|x l IH]; simpl; [auto|].
  intros H. inversion H as [|? ? Hx Hl]; subst.
  destruct (f x); simpl; auto.
  constructor; auto.
  intros Hin. apply Hx. apply in_map_iff in Hin. destruct Hin as (y & Ey & Hy).
  apply filter_In in Hy. apply in_map_iff. exists y. tauto.
Qed.

Lemma NoDup_map_eq A B (g : A -> B) (l : list A) x y :
  NoDup (map g l) -> In x l -> In y l -> g x = g y -> x = y.
Proof.
  induction l as [|z l IH]; simpl; [contradiction|].
  intros H Hx Hy E. inversion H as [|? ? Hz Hl]; subst.
  destruct Hx as [Hx|Hx], Hy as [Hy|Hy]; subst; auto.
  - exfalso. apply Hz. rewrite E. apply in_map. exact Hy.
  - exfalso. apply Hz. rewrite <- E. apply in_map. exact Hx.
Qed.

Lemma existsb_name_false n (l : list Client.t) :
  existsb (fun c => String.eqb (Client.name c) n) l = false ->
  ~ In n (map Client.name l).
Proof.
  intros H Hin. apply in_map_iff in Hin. destruct Hin as (c & E & Hc).
  assert (existsb (fun c => String.eqb (Client.name c) n) l = true).
  { apply existsb_exists. exists c. rewrite E, String.eqb_refl. auto. }
  congruence.
Qed.

Lemma existsb_ip_iff ip (l : list Computer.t) :
  existsb (fun m => String.eqb (Computer.ip_address m) ip) l = true <->
  In ip (map Computer.ip_address l).
Proof.
  rewrite existsb_exists, in_map_iff. split.
  - intros (m & Hm & E). apply String.eqb_eq in E. eauto.
  - intros (m & E & Hm). exists m. rewrite E, String.eqb_refl. auto.
Qed.

(** ** Inserting rows *)

Lemma insert_client_inv n d i d' :
  insert_client n d = Return (i, d') ->
  i = next_id (map Client.id (clients d)) /\
  d' = mkDatabase (clients d ++ [Client.mk i n]) (computers d) (ports d) /\
  ~ In n (map Client.name (clients d)).
Proof.
  unfold insert_client.
  destruct (existsb _ (clients d)) eqn:E; [discriminate|].
  intros H. inversion H; subst. auto using existsb_name_false.
Qed.

Lemma insert_computer_inv ip lat host cid d i d' :
  insert_computer (Computer_ ip lat host cid) d = Return (i, d') ->
  i = next_id (map Computer.id (computers d)) /\
  d' = mkDatabase (clients d) (computers d ++ [Computer.mk i ip lat host cid]) (ports d) /\
  ~ In ip (map Computer.ip_address (computers d)).
Proof.
  unfold insert_computer.
  destruct (existsb _ (computers d)) eqn:E; [discriminate|].
  intros H. inversion H; subst. repeat split.
  rewrite <- existsb_ip_iff. congruence.
Qed.


Lemma insert_client_consistent n d i d' :
  consistent d -> insert_client n d = Return (i, d') -> consistent d'.
Proof.
  intros C H. apply insert_client_inv in H. destruct H as (Hi & Hd & Hn). subst d'.
  destruct C. constructor; cbn [clients computers ports]; auto.
  - rewrite map_app. apply NoDup_snoc; auto. subst i. apply next_id_fresh.
  - rewrite map_app. apply NoDup_snoc; auto.
  - intros m Hm. rewrite map_app. apply in_or_app. auto.
Qed.

Lemma insert_computer_consistent ip lat host cid d i d' :
  consistent d -> In cid (map Client.id (clients d)) ->
  insert_computer (Computer_ ip lat host cid) d = Return (i, d') -> consistent d'.
Proof.
  intros C Hcid H. apply insert_computer_inv in H. destruct H as (Hi & Hd & Hn). subst d'.
  destruct C. constructor; cbn [clients computers ports]; auto.
  - rewrite map_app. apply NoDup_snoc; auto. subst i. apply next_id_fresh.
  - rewrite map_app. apply NoDup_snoc; auto.
  - intros m Hm. apply in_app_or in Hm. destruct Hm as [Hm|[Hm|[]]]; auto.
    subst m. exact Hcid.
  - intros p Hp. rewrite map_app. apply in_or_app. auto.
Qed.

Lemma insert_port_consistent num svc mid d :
  consistent d -> In mid (map Computer.id (computers d)) ->
  ~ In (mid, num) (map port_key (ports d)) ->
  consistent (insert_port (Port_ num svc mid) d).
Proof.
  intros C Hmid Hkey. destruct C.
  constructor; cbn [insert_port clients computers ports]; auto.
  - rewrite map_app. apply NoDup_snoc; auto. apply next_id_fresh.
  - intros p Hp. apply in_app_or in Hp. destruct Hp as [Hp|[Hp|[]]]; auto.
    subst p. exact Hmid.
  - rewrite map_app. apply NoDup_snoc; auto.
Qed.

Lemma ports_insert_ports l d :
  exists rows,
    ports (insert_ports l d) = ports d ++ rows /\
    map port_content rows = map new_port_content l.
Proof.
  revert d. induction l as [|[num svc mid] l IH]; intros d.
  - exists []. rewrite app_nil_r. auto.
  - destruct (IH (insert_port (Port_ num svc mid) d)) as (rows & Hrows & Hmap).
    exists (Port.mk (next_id (map Port.id (ports d))) num svc mid :: rows).
    split.
    + change (insert_ports (Port_ num svc mid :: l) d)
        with (insert_ports l (insert_port (Port_ num svc mid) d)).
      rewrite Hrows. cbn [insert_port ports]. rewrite <- app_assoc. reflexivity.
    + cbn [map]. rewrite Hmap. reflexivity.
Qed.

Lemma insert_ports_consistent l d :
  consistent d ->
  (forall p, In p l -> In (fst (new_port_key p)) (map Computer.id (computers d))) ->
  NoDup (map new_port_key l) ->
  (forall p, In p l -> ~ In (new_port_key p) (map port_key (ports d))) ->
  consistent (insert_ports l d).
Proof.
  revert d. induction l as [|[num svc mid] l IH]; intros d C Hown Hnd Hfresh; [exact C|].
  change (insert_ports (Port_ num svc mid :: l) d)
    with (insert_ports l (insert_port (Port_ num svc mid) d)).
  inversion Hnd as [|? ? Hhd Htl]; subst.
  apply IH.
  - apply insert_port_consistent; auto.
    + apply (Hown (Port_ num svc mid)). left; reflexivity.
    + apply (Hfresh (Port_ num svc mid)). left; reflexivity.
  - intros p Hp. cbn [insert_port computers]. apply Hown. right; exact Hp.
  - exact Htl.
  - intros p Hp. cbn [insert_port ports]. rewrite map_app. intros Hin.
    apply in_app_or in Hin. destruct Hin as [Hin|[Hin|[]]].
    + revert Hin. apply Hfresh. right; exact Hp.
    + apply Hhd. change (mid, num) with (new_port_key (Port_ num svc mid)).
      change (new_port_key (Port_ num svc mid) = new_port_key p) in Hin.
      rewrite Hin. apply in_map. exact Hp.
Qed.

(** ** Bulk-create, row by row *)

Lemma dict_set_fresh V (d : dict V) k v :
  ~ In k (keys d) -> dict_set d k v = d ++ [(k, v)].
Proof.
  induction d as [|[k' v'] d IH]; simpl; [reflexivity|].
  intros H. destruct (String.eqb_spec k' k) as [E|E]; [tauto|].
  rewrite IH; tauto.
Qed.

Lemma fold_dict_set V (items acc : dict V) :
  NoDup (keys (acc ++ items)) ->
  fold_left (fun d kv => dict_set d (fst kv) (snd kv)) items acc = acc ++ items.
Proof.
  revert acc. induction items as [|[k v] items IH]; intros acc H; simpl.
  - rewrite app_nil_r. reflexivity.
  - rewrite dict_set_fresh.
    + rewrite IH; rewrite <- app_assoc; [reflexivity | exact H].
    + unfold keys in *. rewrite map_app in H. apply NoDup_remove_2 in H.
      intros Hin. apply H. apply in_or_app. auto.
Qed.

(** A comprehension over distinct keys is the list of its items. *)
Lemma dict_of_wf V (items : dict V) : wf_dict items -> dict_of items = items.
Proof. intros H. unfold dict_of. rewrite fold_dict_set; auto. Qed.

Lemma client_view_tables d d' c :
  computers d' = computers d -> ports d' = ports d -> client_view d' c = client_view d c.
Proof.
  intros Hm Hp. unfold client_view, computers_of. rewrite Hm. f_equal.
  apply map_ext. intros m. unfold computer_view, ports_of. rewrite Hp. reflexivity.
Qed.

Lemma new_ports_of_content i (P : dict string) :
  map new_port_content (new_ports_of i P) = map (fun ps => (i, fst ps, snd ps)) P.
Proof. unfold new_ports_of. rewrite map_map. reflexivity. Qed.

Lemma rows_of_content i (P : dict string) rows :
  map port_content rows = map (fun ps => (i, fst ps, snd ps)) P ->
  (forall p, In p rows -> Port.computer_id p = i) /\
  map (fun p => (Port.port_number p, Port.service_name p)) rows = P.
Proof.
  intros H. split.
  - intros p Hp. apply (in_map port_content) in Hp. rewrite H in Hp.
    apply in_map_iff in Hp. destruct Hp as (ps & E & _).
    unfold port_content in E. congruence.
  - transitivity (map (fun t : Z * string * string => (snd (fst t), snd t))
                      (map port_content rows)).
    + rewrite map_map. reflexivity.
    + rewrite H, map_map. cbn [fst snd].
      rewrite <- (map_id P) at 2. apply map_ext. intros [a b]. reflexivity.
Qed.

Lemma filter_none A f (l : list A) : (forall x, In x l -> f x = false) -> filter f l = [].
Proof.
  induction l as [|x l IH]; simpl; [reflexivity|].
  intros H. rewrite (H x) by auto. apply IH. auto.
Qed.

Lemma filter_all A f (l : list A) : (forall x, In x l -> f x = true) -> filter f l = l.
Proof.
  induction l as [|x l IH]; simpl; [reflexivity|].
  intros H. rewrite (H x) by auto. f_equal. apply IH. auto.
Qed.

Lemma get_or_ports V (field : option (option (dict V))) (P : dict V) :
  get_or field (Some []) = Some P -> get_or (get field) [] = P.
Proof. destruct field as [[l|]|]; cbn; congruence. Qed.

Lemma get_or_not_null V (field : option (option (dict V))) :
  field <> Some None -> get_or field (Some []) = Some (get_or (get field) []).
Proof.
  destruct field as [[l|]|]; cbn; intros H; try reflexivity.
  exfalso. apply H. reflexivity.
Qed.

Lemma get_or_null V (field : option (option (dict V))) :
  get_or field (Some []) = None <-> field = Some None.
Proof. destruct field as [[l|]|]; cbn; split; congruence. Qed.

(** One computer is created when its row can be inserted and its [ports]
    value is not null. *)
Lemma db_create_computer_inv cid item d d' :
  db_create_computer cid item d = Return d' ->
  exists i d1,
    insert_computer (new_computer_of cid item) d = Return (i, d1) /\
    ports_null (snd item) = false /\
    d' = insert_ports
           (new_ports_of i (get_or (get (ComputerData.ports (snd item))) [])) d1.
Proof.
  unfold db_create_computer.
  destruct (insert_computer (new_computer_of cid item) d) as [[i d1]|e]; [|discriminate].
  destruct (get_or (ComputerData.ports (snd item)) (Some [])) as [P|] eqn:E; [|discriminate].
  intros H. inversion H; subst. exists i, d1. split; [reflexivity|]. split.
  - unfold ports_null. destruct (ComputerData.ports (snd item)) as [[l|]|]; cbn in *;
      congruence.
  - rewrite (get_or_ports _ E). reflexivity.
Qed.


(** The effect of creating one computer with its ports, as the listing
    shows it: the owner gains one computer at the end, with all the ports of
    the request; nothing else moves. *)
Lemma db_create_computer_spec cid item d d' :
  consistent d -> In cid (map Client.id (clients d)) ->
  wf_dict (get_or (get (ComputerData.ports (snd item))) []) ->
  db_create_computer cid item d = Return d' ->
  consistent d' /\ clients d' = clients d /\
  forall c,
    client_view d' c
    = ClientView.mk (Client.name c)
        (ClientView.computers (client_view d c)
           ++ if (cid =? Client.id c)%Z then [listed_computer item] else []).
Proof.
  intros C Hcid Hwf H. destruct item as [ip cd].
  apply db_create_computer_inv in H. destruct H as (i & d1 & Hins & _ & Hd'). subst d'.
  unfold new_computer_of in Hins. cbn [fst snd] in *.
  set (P := get_or (get (ComputerData.ports cd)) []) in *.
  pose proof (insert_computer_consistent _ _ _ _ C Hcid Hins) as C1.
  apply insert_computer_inv in Hins. destruct Hins as (Hi & Hd1 & Hip).
  assert (Hfresh : ~ In i (map Computer.id (computers d))) by (subst i; apply next_id_fresh).
  assert (Hnoport : forall p, In p (ports d) -> Port.computer_id p <> i).
  { intros p Hp E. apply Hfresh. rewrite <- E. apply (ports_owned C). exact Hp. }
  destruct (ports_insert_ports (new_ports_of i P) d1) as (rows & Hrows & Hcontent).
  rewrite new_ports_of_content in Hcontent.
  destruct (rows_of_content _ _ _ Hcontent) as (Hrows_i & Hrows_P).
  split; [|split].
  - apply insert_ports_consistent; auto.
    + intros p Hp. unfold new_ports_of in Hp. apply in_map_iff in Hp.
      destruct Hp as (ps & E & _). subst p d1. cbn [new_port_key fst computers].
      rewrite map_app. apply in_or_app. right. left. reflexivity.
    + unfold new_ports_of. rewrite map_map. cbn [new_port_key].
      change (map (fun x : string * string => (i, fst x)) P)
        with (map (fun x : string * string => (fun k => (i, k)) (fst x)) P).
      rewrite <- (map_map fst (fun k => (i, k))).
      apply NoDup_map_NoDup_ForallPairs; [|exact Hwf].
      intros a b _ _ E. congruence.
    + intros p Hp Hin. unfold new_ports_of in Hp. apply in_map_iff in Hp.
      destruct Hp as (ps & E & _). subst p d1. cbn [new_port_key ports] in Hin.
      apply in_map_iff in Hin. destruct Hin as (q & Eq & Hq).
      apply (Hnoport q Hq). unfold port_key in Eq. congruence.
  - rewrite clients_insert_ports. subst d1. reflexivity.
  - intros c. unfold client_view at 1. cbn [ClientView.computers client_view]. f_equal.
    unfold computers_of. rewrite computers_insert_ports. subst d1.
    cbn [computers ports] in *. rewrite filter_app, map_app. f_equal.
    + apply map_ext_in. intros m Hm. apply filter_In in Hm. destruct Hm as [Hm _].
      unfold computer_view. f_equal. f_equal. unfold ports_of. rewrite Hrows, filter_app.
      rewrite (filter_none _ rows), app_nil_r; [reflexivity|].
      intros p Hp. rewrite (Hrows_i p Hp). apply Z.eqb_neq. intros E. apply Hfresh.
      rewrite E. apply in_map. exact Hm.
    + cbn [filter Computer.client_id]. destruct (cid =? Client.id c)%Z; [|reflexivity].
      cbn [map]. unfold computer_view, listed_computer. cbn [fst snd]. f_equal. f_equal.
      cbn [Computer.ip_address Computer.latency Computer.hostname]. f_equal.
      unfold ports_of. cbn [Computer.id]. rewrite Hrows, filter_app.
      rewrite filter_none, filter_all, app_nil_l.
      * rewrite Hrows_P. apply dict_of_wf. exact Hwf.
      * intros p Hp. apply Z.eqb_eq. auto.
      * intros p Hp. apply Z.eqb_neq. auto.
Qed.

Lemma db_create_computers_spec cid items d d' :
  consistent d -> In cid (map Client.id (clients d)) ->
  Forall (fun item => wf_dict (get_or (get (ComputerData.ports (snd item))) [])) items ->
  foldM (db_create_computer cid) items d = Return d' ->
  consistent d' /\ clients d' = clients d /\
  forall c,
    client_view d' c
    = ClientView.mk (Client.name c)
        (ClientView.computers (client_view d c)
           ++ if (cid =? Client.id c)%Z then map listed_computer items else []).
Proof.
  revert d. induction items as [|item items IH]; intros d C Hcid Hwf; simpl.
  - intros H. inversion H; subst. split; [|split]; auto.
    intros c. destruct (cid =? Client.id c)%Z; rewrite app_nil_r; reflexivity.
  - inversion Hwf as [|? ? Hitem Hitems]; subst.
    destruct (db_create_computer cid item d) as [d1|e] eqn:H1; [|discriminate].
    intros H. destruct (db_create_computer_spec _ _ C Hcid Hitem H1) as (C1 & Hc1 & V1).
    rewrite <- Hc1 in Hcid.
    destruct (IH d1 C1 Hcid Hitems H) as (C' & Hc' & V').
    split; [|split]; [exact C' | congruence |].
    intros c. rewrite V', V1. cbn [ClientView.computers].
    rewrite <- app_assoc. destruct (cid =? Client.id c)%Z; reflexivity.
Qed.

(** The effect of one entry of the bulk-create input: one client more, listed
    as the entry describes it; the clients already there are listed as
    before. *)
Lemma db_create_client_spec client_data d d' :
  consistent d -> wf_computers (ClientData.computers client_data) ->
  db_create_client client_data d = Return d' ->
  consistent d' /\
  ~ In (get_or (ClientData.client client_data) EmptyString) (map Client.name (clients d)) /\
  exists i,
    clients d' = clients d ++ [Client.mk i (get_or (ClientData.client client_data) EmptyString)] /\
    (forall c, In c (clients d) -> client_view d' c = client_view d c) /\
    client_view d' (Client.mk i (get_or (ClientData.client client_data) EmptyString))
    = listed_client client_data.
Proof.
  intros C [_ Hwf]. unfold db_create_client.
  destruct (negb _ || negb _); [discriminate|].
  set (n := get_or (ClientData.client client_data) EmptyString).
  set (items := get_or (ClientData.computers client_data) []) in *.
  destruct (find _ (clients d)); [discriminate|].
  destruct (insert_client n d) as [[i d1]|e] eqn:Hins; [|discriminate].
  intros H.
  pose proof (insert_client_consistent _ C Hins) as C1.
  apply insert_client_inv in Hins. destruct Hins as (Hi & Hd1 & Hn).
  assert (Hcid : In i (map Client.id (clients d1))).
  { subst d1. cbn [clients]. rewrite map_app. apply in_or_app. right. left. reflexivity. }
  destruct (db_create_computers_spec _ C1 Hcid Hwf H) as (C' & Hc' & V').
  assert (Hfresh : ~ In i (map Client.id (clients d))) by (subst i; apply next_id_fresh).
  split; [exact C'|]. split; [exact Hn|]. exists i. split; [|split].
  - rewrite Hc'. subst d1. reflexivity.
  - intros c Hc. rewrite V'.
    replace (i =? Client.id c)%Z with false.
    + rewrite app_nil_r. subst d1. reflexivity.
    + symmetry. apply Z.eqb_neq. intros E. apply Hfresh. rewrite E. apply in_map. exact Hc.
  - rewrite V'. cbn [Client.id Client.name]. rewrite Z.eqb_refl.
    unfold listed_client. f_equal.
    replace (ClientView.computers (client_view d1 (Client.mk i n))) with (@nil ComputerView.t);
      [reflexivity|].
    unfold client_view, computers_of. cbn [ClientView.computers Client.id]. subst d1.
    cbn [computers]. rewrite filter_none; [reflexivity|].
    intros m Hm. apply Z.eqb_neq. intros E. apply Hfresh. rewrite <- E.
    apply (computers_owned C). exact Hm.
Qed.

Lemma db_create_clients_spec data d d' :
  consistent d -> wf_data data ->
  foldM db_create_client data d = Return d' ->
  consistent d' /\
  map (client_view d') (clients d')
  = map (client_view d) (clients d) ++ map listed_client data.
Proof.
  revert d. induction data as [|x data IH]; intros d C Hwf; simpl.
  - intros H. inversion H; subst. rewrite app_nil_r. auto.
  - inversion Hwf as [|? ? Hx Hdata]; subst.
    destruct (db_create_client x d) as [d1|e] eqn:H1; [|discriminate].
    intros H.
    destruct (db_create_client_spec _ C Hx H1) as (C1 & _ & i & Hc1 & Vold & Vnew).
    destruct (IH d1 C1 Hdata H) as (C' & L').
    split; [exact C'|]. rewrite L', Hc1, map_app. cbn [map]. rewrite Vnew.
    rewrite (map_ext_in _ _ _ Vold), <- app_assoc. reflexivity.
Qed.

(** ** Partial update: what stays fixed and what is left pending *)

Lemma same_keys_refl d : same_keys d d.
Proof. repeat split. Qed.

Lemma same_keys_trans d1 d2 d3 : same_keys d1 d2 -> same_keys d2 d3 -> same_keys d1 d3.
Proof. intros (A & B & C) (A' & B' & C'). repeat split; congruence. Qed.

Lemma same_keys_update_computers f pk d :
  (forall m, computer_key (f m) = computer_key m) ->
  same_keys d (update_computers f pk d).
Proof.
  intros Hf. repeat split. cbn [update_computers computers].
  rewrite map_map. apply map_ext. intros m.
  destruct (Computer.id m =? pk)%Z; auto.
Qed.

Lemma same_keys_update_ports f pk d :
  (forall p, port_ident (f p) = port_ident p) ->
  same_keys d (update_ports f pk d).
Proof.
  intros Hf. repeat split. cbn [update_ports ports].
  rewrite map_map. apply map_ext. intros p.
  destruct (Port.id p =? pk)%Z; auto.
Qed.

Lemma map_proj A K B (g : A -> K) (h : K -> B) (l l' : list A) :
  map g l' = map g l -> map (fun x => h (g x)) l' = map (fun x => h (g x)) l.
Proof. intros H. rewrite <- !(map_map g h). congruence. Qed.

Lemma In_map_same A K (g : A -> K) (l l' : list A) x :
  map g l' = map g l -> In x l' -> exists y, In y l /\ g y = g x.
Proof.
  intros H Hx. apply (in_map g) in Hx. rewrite H in Hx.
  apply in_map_iff in Hx. destruct Hx as (y & E & Hy). eauto.
Qed.

Lemma consistent_same_keys d d' : same_keys d d' -> consistent d -> consistent d'.
Proof.
  intros (Hc & Hm & Hp) C.
  assert (Eid : map Computer.id (computers d') = map Computer.id (computers d))
    by exact (map_proj computer_key (fun k => fst (fst k)) _ _ Hm).
  assert (Eip : map Computer.ip_address (computers d')
                = map Computer.ip_address (computers d))
    by exact (map_proj computer_key (fun k => snd (fst k)) _ _ Hm).
  assert (Epid : map Port.id (ports d') = map Port.id (ports d))
    by exact (map_proj port_ident (fun k => fst (fst k)) _ _ Hp).
  assert (Epk : map port_key (ports d') = map port_key (ports d))
    by exact (map_proj port_ident (fun k => (snd (fst k), snd k)) _ _ Hp).
  destruct C. constructor; try congruence.
  - intros m Hin. destruct (In_map_same _ _ _ m Hm Hin) as (m0 & Hm0 & E).
    rewrite Hc. replace (Computer.client_id m) with (Computer.client_id m0).
    + auto.
    + unfold computer_key in E. congruence.
  - intros p Hin. destruct (In_map_same _ _ _ p Hp Hin) as (p0 & Hp0 & E).
    rewrite Eid. replace (Port.computer_id p) with (Port.computer_id p0).
    + auto.
    + unfold port_ident in E. congruence.
Qed.

(** A query that filters on key columns finds rows with the same key in two
    tables that agree on their keys. *)
Lemma find_same_keys A K (g : A -> K) (test : K -> bool) (l l' : list A) :
  map g l' = map g l ->
  option_map g (find (fun x => test (g x)) l') = option_map g (find (fun x => test (g x)) l).
Proof.
  revert l'. induction l as [|x l IH]; intros [|x' l'] H; try discriminate; [reflexivity|].
  simpl in H. inversion H as [[E H']]. simpl. rewrite E.
  destruct (test (g x)); simpl; [congruence|]. apply IH. exact H'.
Qed.

Lemma computer_of_same_keys d d' cid ip :
  same_keys d d' ->
  option_map computer_key (computer_of d' cid ip)
  = option_map computer_key (computer_of d cid ip).
Proof.
  intros (_ & Hm & _). unfold computer_of.
  apply (find_same_keys computer_key
           (fun k => String.eqb (snd (fst k)) ip && (snd k =? cid)%Z) _ _ Hm).
Qed.

Lemma port_of_same_keys d d' mid num :
  same_keys d d' ->
  option_map port_ident (port_of d' mid num) = option_map port_ident (port_of d mid num).
Proof.
  intros (_ & _ & Hp). unfold port_of.
  apply (find_same_keys port_ident
           (fun k => (snd (fst k) =? mid)%Z && String.eqb (snd k) num) _ _ Hp).
Qed.

Lemma absent_option_map A B (g : A -> B) (o o' : option A) :
  option_map g o' = option_map g o -> absent o' = absent o.
Proof. destruct o, o'; simpl; congruence. Qed.

Lemma pending_ports_for_same_keys d d' mid P :
  same_keys d d' -> pending_ports_for d' mid P = pending_ports_for d mid P.
Proof.
  intros H. unfold pending_ports_for. f_equal. apply filter_ext. intros ps.
  apply (absent_option_map port_ident). apply port_of_same_keys. exact H.
Qed.

Lemma pending_computers_same_keys d d' c items :
  same_keys d d' -> pending_computers d' c items = pending_computers d c items.
Proof.
  intros H. unfold pending_computers. f_equal. apply filter_ext. intros it.
  apply (absent_option_map computer_key). apply computer_of_same_keys. exact H.
Qed.

Lemma pending_ports_same_keys d d' c items :
  same_keys d d' -> pending_ports d' c items = pending_ports d c items.
Proof.
  intros H. unfold pending_ports. apply flat_map_ext. intros it.
  pose proof (computer_of_same_keys (Client.id c) (fst it) H) as E.
  destruct (computer_of d' (Client.id c) (fst it)) as [m'|],
           (computer_of d (Client.id c) (fst it)) as [m|]; simpl in E; try discriminate.
  - replace (Computer.id m') with (Computer.id m)
      by (unfold computer_key in E; congruence).
    apply pending_ports_for_same_keys. exact H.
  - reflexivity.
Qed.

(** The port loop of one computer. *)
Lemma upsert_ports_loop m (P : dict string) s :
  exists t,
    for_each P (upsert_port m) s
    = (Return tt, mkSession (committed s) t (new_computers s)
                            (new_ports s ++ pending_ports_for (tx s) (Computer.id m) P))
    /\ same_keys (tx s) t.
Proof.
  revert s. induction P as [|[port service] P IH]; intros s.
  - exists (tx s). split; [|apply same_keys_refl].
    unfold pending_ports_for. simpl. rewrite app_nil_r. destruct s; reflexivity.
  - cbn [for_each]. unfold bind at 1, upsert_port at 1, bind at 1, query_port.
    unfold pending_ports_for. cbn [filter fst].
    change (find _ (ports (tx s))) with (port_of (tx s) (Computer.id m) port).
    destruct (port_of (tx s) (Computer.id m) port) as [pe|]; cbn [absent].
    + unfold set_service_name, on_tx.
      set (t1 := update_ports _ (Port.id pe) (tx s)).
      assert (K1 : same_keys (tx s) t1) by (apply same_keys_update_ports; reflexivity).
      destruct (IH (mkSession (committed s) t1 (new_computers s) (new_ports s)))
        as (t & Ht & Kt).
      exists t. split; [|eapply same_keys_trans; eauto].
      rewrite Ht. cbn [committed tx new_computers new_ports].
      rewrite (pending_ports_for_same_keys _ _ K1). reflexivity.
    + unfold add_port at 1.
      destruct (IH (mkSession (committed s) (tx s) (new_computers s)
                              (new_ports s ++ [Port_ port service (Computer.id m)])))
        as (t & Ht & Kt).
      exists t. split; [|exact Kt].
      rewrite Ht. cbn [committed tx new_computers new_ports new_ports_of map fst snd].
      rewrite <- app_assoc. reflexivity.
Qed.

Lemma patch_typed_same_keys d d' c items :
  same_keys d d' -> patch_typed d' c items = patch_typed d c items.
Proof.
  intros H. unfold patch_typed. induction items as [|it items IH]; [reflexivity|].
  cbn [forallb]. rewrite IH. f_equal. f_equal.
  apply (absent_option_map computer_key). apply computer_of_same_keys. exact H.
Qed.

Lemma pending_computers_cons d c item items :
  pending_computers d c (item :: items)
  = pending_computers d c [item] ++ pending_computers d c items.
Proof.
  unfold pending_computers. cbn [filter].
  destruct (absent (computer_of d (Client.id c) (fst item))); reflexivity.
Qed.

Lemma pending_ports_cons d c item items :
  pending_ports d c (item :: items) = pending_ports d c [item] ++ pending_ports d c items.
Proof. unfold pending_ports. cbn [flat_map]. rewrite app_nil_r. reflexivity. Qed.

(** One turn of the loop of [update_client], for a computer whose [ports]
    value is not null where line 153 reads it. *)
Lemma upsert_computer_step c ip cd s :
  absent (computer_of (tx s) (Client.id c) ip) || negb (ports_null cd) = true ->
  exists t,
    upsert_computer c (ip, cd) s
    = (Return tt, mkSession (committed s) t
                            (new_computers s ++ pending_computers (tx s) c [(ip, cd)])
                            (new_ports s ++ pending_ports (tx s) c [(ip, cd)]))
    /\ same_keys (tx s) t.
Proof.
  intros Hty. unfold upsert_computer at 1, bind at 1, query_computer.
  unfold pending_computers, pending_ports. cbn [filter flat_map fst snd].
  change (find _ (computers (tx s))) with (computer_of (tx s) (Client.id c) ip).
  destruct (computer_of (tx s) (Client.id c) ip) as [m|]; cbn [absent orb] in *.
  - assert (E : get_or (ComputerData.ports cd) (Some [])
                = Some (get_or (get (ComputerData.ports cd)) [])).
    { unfold ports_null in Hty.
      destruct (ComputerData.ports cd) as [[l|]|]; cbn in *;
        reflexivity || discriminate. }
    rewrite E. cbn [for_items].
    unfold bind at 1, set_latency at 1, on_tx at 1.
    unfold bind at 1, set_hostname at 1, on_tx at 1.
    cbn [committed tx new_computers new_ports].
    set (t1 := update_computers _ (Computer.id m) (tx s)).
    set (t2 := update_computers _ (Computer.id m) t1).
    assert (K1 : same_keys (tx s) t1) by (apply same_keys_update_computers; reflexivity).
    assert (K2 : same_keys t1 t2) by (apply same_keys_update_computers; reflexivity).
    pose proof (same_keys_trans K1 K2) as K12.
    destruct (upsert_ports_loop m (get_or (get (ComputerData.ports cd)) [])
                (mkSession (committed s) t2 (new_computers s) (new_ports s)))
      as (t3 & Ht3 & K3).
    rewrite Ht3. cbn [committed tx new_computers new_ports map app] in *.
    exists t3. split; [|eapply same_keys_trans; eauto].
    rewrite (pending_ports_for_same_keys _ _ K12), !app_nil_r. reflexivity.
  - unfold add_computer at 1. exists (tx s). split; [|apply same_keys_refl].
    cbn [map app]. rewrite app_nil_r. reflexivity.
Qed.

(** The turn of a computer the client has and whose [ports] value is null. *)
Lemma upsert_computer_null c ip cd s :
  absent (computer_of (tx s) (Client.id c) ip) || negb (ports_null cd) = false ->
  exists s', upsert_computer c (ip, cd) s = (Raise none_has_no_items, s').
Proof.
  intros Hty. unfold upsert_computer at 1, bind at 1, query_computer.
  change (find _ (computers (tx s))) with (computer_of (tx s) (Client.id c) ip).
  destruct (computer_of (tx s) (Client.id c) ip) as [m|]; cbn [absent orb] in *;
    [|discriminate].
  assert (E : get_or (ComputerData.ports cd) (Some []) = None).
  { unfold ports_null in Hty.
    destruct (ComputerData.ports cd) as [[l|]|]; cbn in *;
      reflexivity || discriminate. }
  rewrite E. cbn [for_items].
  unfold bind at 1, set_latency at 1, on_tx at 1.
  unfold bind at 1, set_hostname at 1, on_tx at 1.
  unfold raise. eauto.
Qed.

(** The loop of [update_client] over the computers of the patch. *)
Lemma upsert_loop c (items : dict ComputerData.t) s :
  patch_typed (tx s) c items = true ->
  exists t,
    for_each items (upsert_computer c) s
    = (Return tt, mkSession (committed s) t
                            (new_computers s ++ pending_computers (tx s) c items)
                            (new_ports s ++ pending_ports (tx s) c items))
    /\ same_keys (tx s) t.
Proof.
  revert s. induction items as [|[ip cd] items IH]; intros s Hty.
  - exists (tx s). split; [|apply same_keys_refl].
    unfold pending_computers, pending_ports. simpl. rewrite !app_nil_r.
    destruct s; reflexivity.
  - unfold patch_typed in Hty. cbn [forallb fst snd] in Hty.
    apply andb_true_iff in Hty. destruct Hty as [Hhd Htl].
    destruct (@upsert_computer_step c ip cd s Hhd) as (t1 & H1 & K1).
    cbn [for_each]. unfold bind at 1. rewrite H1.
    set (s1 := mkSession _ t1 _ _).
    assert (Hty1 : patch_typed (tx s1) c items = true).
    { unfold s1. cbn [tx]. rewrite (patch_typed_same_keys _ _ K1). exact Htl. }
    destruct (IH s1 Hty1) as (t & Ht & Kt).
    exists t. split; [|eapply same_keys_trans; eauto].
    rewrite Ht. unfold s1. cbn [committed tx new_computers new_ports].
    rewrite (pending_computers_same_keys _ _ K1), (pending_ports_same_keys _ _ K1).
    rewrite (pending_computers_cons (tx s) c (ip, cd) items),
      (pending_ports_cons (tx s) c (ip, cd) items).
    rewrite <- !app_assoc. reflexivity.
Qed.

Lemma upsert_loop_null c (items : dict ComputerData.t) s :
  patch_typed (tx s) c items = false ->
  exists s', for_each items (upsert_computer c) s = (Raise none_has_no_items, s').
Proof.
  revert s. induction items as [|[ip cd] items IH]; intros s Hty; [discriminate|].
  unfold patch_typed in Hty. cbn [forallb fst snd] in Hty.
  cbn [for_each]. unfold bind at 1.
  destruct (absent (computer_of (tx s) (Client.id c) ip) || negb (ports_null cd)) eqn:Hhd.
  - destruct (@upsert_computer_step c ip cd s Hhd) as (t1 & H1 & K1). rewrite H1.
    apply IH. cbn [tx]. rewrite (patch_typed_same_keys _ _ K1). exact Hty.
  - destruct (@upsert_computer_null c ip cd s Hhd) as (s' & H1). rewrite H1. eauto.
Qed.

(** [update_client], with its loop resolved: a null where a mapping is read
    ends the call on [AttributeError]; otherwise the [commit] decides. *)
Lemma update_client_null_computers client_name data d c :
  find (fun c => String.eqb (Client.name c) client_name) (clients d) = Some c ->
  UpdateData.computers data = Some None ->
  update_client client_name data d = (Raise (surfaced none_has_no_items), d).
Proof. intros Hc E. rewrite update_client_run, Hc, E. reflexivity. Qed.

Lemma update_client_null_ports client_name data d c :
  find (fun c => String.eqb (Client.name c) client_name) (clients d) = Some c ->
  UpdateData.computers data <> Some None ->
  patch_typed d c (get_or (get (UpdateData.computers data)) []) = false ->
  update_client client_name data d = (Raise (surfaced none_has_no_items), d).
Proof.
  intros Hc E Hty. rewrite update_client_run, Hc.
  destruct (get_or (UpdateData.computers data) (Some [])) as [items|] eqn:Ei.
  - rewrite (get_or_ports _ Ei) in Hty.
    destruct (@upsert_loop_null c items (SessionLocal d) Hty) as (s' & H). rewrite H.
    reflexivity.
  - apply get_or_null in Ei. contradiction.
Qed.

Lemma update_client_commit client_name data d c :
  find (fun c => String.eqb (Client.name c) client_name) (clients d) = Some c ->
  UpdateData.computers data <> Some None ->
  patch_typed d c (get_or (get (UpdateData.computers data)) []) = true ->
  exists t,
    same_keys d t /\
    update_client client_name data d
    = match insert_computers
              (pending_computers d c (get_or (get (UpdateData.computers data)) [])) t with
      | Return d' =>
          (Return (Message (updated_successfully client_name)),
           insert_ports (pending_ports d c (get_or (get (UpdateData.computers data)) [])) d')
      | Raise e => (Raise (surfaced e), d)
      end.
Proof.
  intros Hc E Hty. rewrite update_client_run, Hc.
  destruct (get_or (UpdateData.computers data) (Some [])) as [items|] eqn:Ei.
  - rewrite (get_or_ports _ Ei) in *.
    destruct (@upsert_loop c items (SessionLocal d) Hty) as (t & Ht & Kt).
    exists t. split; [exact Kt|]. rewrite Ht. reflexivity.
  - apply get_or_null in Ei. contradiction.
Qed.

(** Either way, a call that does not return leaves the database as it was. *)
Lemma update_client_null client_name data d c :
  find (fun c => String.eqb (Client.name c) client_name) (clients d) = Some c ->
  UpdateData.computers data = Some None \/
  patch_typed d c (get_or (get (UpdateData.computers data)) []) = false ->
  update_client client_name data d = (Raise (surfaced none_has_no_items), d).
Proof.
  intros Hc [E|Hty]; [eapply update_client_null_computers; eauto|].
  destruct (UpdateData.computers data) as [[items|]|] eqn:E.
  - eapply update_client_null_ports; eauto; rewrite E; [discriminate|exact Hty].
  - eapply update_client_null_computers; eauto.
  - discriminate.
Qed.

(** ** The writing routes keep the database consistent *)

Lemma consistent_empty : consistent empty_db.
Proof. constructor; simpl; try constructor; intros ? []. Qed.

Lemma create_clients_consistent data d :
  consistent d -> wf_data data -> consistent (snd (create_clients data d)).
Proof.
  intros C Hwf. rewrite create_clients_run.
  destruct (foldM db_create_client data d) as [d'|e] eqn:H; [|exact C].
  eapply db_create_clients_spec; eauto.
Qed.

Lemma insert_computers_consistent l d d' :
  consistent d ->
  (forall c, In c l -> In (new_computer_client c) (map Client.id (clients d))) ->
  insert_computers l d = Return d' ->
  consistent d' /\ clients d' = clients d /\ ports d' = ports d /\
  incl (map Computer.id (computers d)) (map Computer.id (computers d')).
Proof.
  revert d. induction l as [|[ip lat host cid] l IH]; intros d C Hown; cbn [insert_computers].
  - intros H. inversion H; subst.
    split; [exact C|]. split; [reflexivity|]. split; [reflexivity|]. apply incl_refl.
  - destruct (insert_computer (Computer_ ip lat host cid) d) as [[i d1]|e] eqn:H1;
      [|discriminate].
    intros H.
    assert (Hcid : In cid (map Client.id (clients d)))
      by (apply (Hown (Computer_ ip lat host cid)); left; reflexivity).
    pose proof (insert_computer_consistent _ _ _ _ C Hcid H1) as C1.
    apply insert_computer_inv in H1. destruct H1 as (_ & Hd1 & _).
    assert (Hown1 : forall c, In c l -> In (new_computer_client c) (map Client.id (clients d1))).
    { intros c Hc. subst d1. apply Hown. right; exact Hc. }
    destruct (IH d1 C1 Hown1 H) as (C' & Hc' & Hp' & Hincl).
    subst d1. cbn [clients ports computers] in *.
    split; [exact C'|]. split; [exact Hc'|]. split; [exact Hp'|].
    intros x Hx. apply Hincl. rewrite map_app. apply in_or_app. auto.
Qed.

Lemma computer_of_Some d cid ip m :
  computer_of d cid ip = Some m ->
  In m (computers d) /\ Computer.ip_address m = ip /\ Computer.client_id m = cid.
Proof.
  intros H. apply find_some in H. destruct H as [Hin H].
  apply andb_true_iff in H. destruct H as [H1 H2].
  apply String.eqb_eq in H1. apply Z.eqb_eq in H2. auto.
Qed.

Lemma port_of_None d mid num :
  port_of d mid num = None -> ~ In (mid, num) (map port_key (ports d)).
Proof.
  intros H Hin. apply in_map_iff in Hin. destruct Hin as (p & E & Hp).
  pose proof (find_none _ _ H p Hp) as F. cbv beta in F.
  unfold port_key in E. inversion E; subst.
  rewrite Z.eqb_refl, String.eqb_refl in F. discriminate.
Qed.

Lemma pending_ports_for_In d mid (P : dict string) p :
  In p (pending_ports_for d mid P) ->
  exists num svc, In (num, svc) P /\ port_of d mid num = None /\ p = Port_ num svc mid.
Proof.
  unfold pending_ports_for, new_ports_of. intros H.
  apply in_map_iff in H. destruct H as ([num svc] & E & H).
  apply filter_In in H. destruct H as [Hin Hab]. cbn [fst snd] in *.
  exists num, svc. repeat split; auto.
  destruct (port_of d mid num); [discriminate|reflexivity].
Qed.

Lemma pending_ports_In d c items p :
  In p (pending_ports d c items) ->
  exists ip cd m num svc,
    In (ip, cd) items /\ computer_of d (Client.id c) ip = Some m /\
    In (num, svc) (get_or (get (ComputerData.ports cd)) []) /\
    port_of d (Computer.id m) num = None /\ p = Port_ num svc (Computer.id m).
Proof.
  unfold pending_ports. intros H. apply in_flat_map in H.
  destruct H as ([ip cd] & Hit & H). cbn [fst snd] in H.
  destruct (computer_of d (Client.id c) ip) as [m|] eqn:Hm; [|contradiction].
  apply pending_ports_for_In in H. destruct H as (num & svc & Hin & Hnone & E).
  exists ip, cd, m, num, svc. auto.
Qed.

Lemma pending_ports_for_NoDup d mid (P : dict string) :
  wf_dict P -> NoDup (map new_port_key (pending_ports_for d mid P)).
Proof.
  intros Hwf. unfold pending_ports_for, new_ports_of. rewrite map_map. cbn [new_port_key].
  set (f := fun port_service : string * string => absent (port_of d mid (fst port_service))).
  change (map (fun x : string * string => (mid, fst x)) (filter f P))
    with (map (fun x : string * string => (fun k => (mid, k)) (fst x)) (filter f P)).
  rewrite <- (map_map fst (fun k => (mid, k))).
  apply NoDup_map_NoDup_ForallPairs.
  - intros a b _ _ E. congruence.
  - apply NoDup_map_filter. exact Hwf.
Qed.

Lemma pending_ports_NoDup d c items :
  consistent d -> wf_computers (Some items) ->
  NoDup (map new_port_key (pending_ports d c items)).
Proof.
  intros C [Hkeys Hports]. cbn [get_or] in *. unfold wf_dict in Hkeys.
  induction items as [|[ip cd] items IH]; [constructor|].
  inversion Hkeys as [|? ? Hip Hrest]; subst.
  inversion Hports as [|? ? Hcd Hitems]; subst.
  change (pending_ports d c ((ip, cd) :: items))
    with (match computer_of d (Client.id c) ip with
          | Some m => pending_ports_for d (Computer.id m) (get_or (get (ComputerData.ports cd)) [])
          | None => []
          end ++ pending_ports d c items).
  rewrite map_app. apply NoDup_app; [| apply IH; assumption |].
  - destruct (computer_of d (Client.id c) ip); [|constructor].
    apply pending_ports_for_NoDup. exact Hcd.
  - intros k Hk Hk'.
    destruct (computer_of d (Client.id c) ip) as [m|] eqn:Hm; [|contradiction].
    apply in_map_iff in Hk. destruct Hk as (p & Ep & Hp).
    apply pending_ports_for_In in Hp. destruct Hp as (num & svc & _ & _ & E). subst p.
    apply in_map_iff in Hk'. destruct Hk' as (p' & Ep' & Hp').
    apply pending_ports_In in Hp'.
    destruct Hp' as (ip' & cd' & m' & num' & svc' & Hit' & Hm' & _ & _ & E'). subst p'.
    cbn [new_port_key] in *. subst k. inversion Ep' as [[Eid Enum]].
    apply computer_of_Some in Hm. destruct Hm as (Hin & Hipm & _).
    apply computer_of_Some in Hm'. destruct Hm' as (Hin' & Hipm' & _).
    assert (m' = m) by (eapply NoDup_map_eq; eauto using computer_ids_unique).
    subst m'. apply Hip. replace ip with ip' by congruence.
    change ip' with (fst (ip', cd')). apply in_map. exact Hit'.
Qed.

Lemma update_client_typed_or_null client_name data d c :
  find (fun c => String.eqb (Client.name c) client_name) (clients d) = Some c ->
  (UpdateData.computers data <> Some None /\
   patch_typed d c (get_or (get (UpdateData.computers data)) []) = true) \/
  update_client client_name data d = (Raise (surfaced none_has_no_items), d).
Proof.
  intros Hc.
  destruct (patch_typed d c (get_or (get (UpdateData.computers data)) [])) eqn:Hty.
  - destruct (UpdateData.computers data) as [[items|]|] eqn:E.
    + left. split; [discriminate|reflexivity].
    + right. eapply update_client_null_computers; eauto.
    + left. split; [discriminate|reflexivity].
  - right. eapply update_client_null; eauto.
Qed.

Lemma update_client_consistent client_name data d :
  consistent d -> wf_computers (get (UpdateData.computers data)) ->
  consistent (snd (update_client client_name data d)).
Proof.
  intros C Hwf.
  destruct (find (fun c => String.eqb (Client.name c) client_name) (clients d))
    as [c|] eqn:Hc.
  2: { rewrite update_client_run, Hc. exact C. }
  destruct (update_client_typed_or_null client_name data d Hc) as [[Hnn Hty]|Hnull].
  2: { rewrite Hnull. exact C. }
  destruct (update_client_commit client_name data d Hc Hnn Hty) as (t & Kt & Hrun).
  rewrite Hrun. clear Hrun.
  set (items := get_or (get (UpdateData.computers data)) []) in *.
  destruct (insert_computers (pending_computers d c items) t) as [d'|e] eqn:Hins; [|exact C].
  cbn [snd].
  pose proof (consistent_same_keys Kt C) as Ct.
  destruct Kt as (Kc & Km & Kp).
  assert (Hown : forall x, In x (pending_computers d c items) ->
                           In (new_computer_client x) (map Client.id (clients t))).
  { intros x Hx. unfold pending_computers in Hx. apply in_map_iff in Hx.
    destruct Hx as (it & E & _). subst x. cbn [new_computer_of new_computer_client].
    rewrite Kc. apply in_map. apply find_some in Hc. tauto. }
  destruct (insert_computers_consistent _ Ct Hown Hins) as (C' & Hc' & Hp' & Hincl).
  assert (Wf : wf_computers (Some items)).
  { destruct Hwf as [W1 W2]. split; assumption. }
  apply insert_ports_consistent; auto.
  - intros p Hp. apply pending_ports_In in Hp.
    destruct Hp as (ip & cd & m & num & svc & _ & Hm & _ & _ & E). subst p.
    cbn [new_port_key fst]. apply Hincl.
    replace (map Computer.id (computers t)) with (map Computer.id (computers d))
      by (symmetry; exact (map_proj computer_key (fun k => fst (fst k)) _ _ Km)).
    apply in_map. apply computer_of_Some in Hm. tauto.
  - apply pending_ports_NoDup; assumption.
  - intros p Hp. apply pending_ports_In in Hp.
    destruct Hp as (ip & cd & m & num & svc & _ & _ & _ & Hnone & E). subst p.
    cbn [new_port_key]. rewrite Hp'.
    replace (map port_key (ports t)) with (map port_key (ports d))
      by (symmetry; exact (map_proj port_ident (fun k => (snd (fst k), snd k)) _ _ Kp)).
    apply port_of_None. exact Hnone.
Qed.

(** ** Cascading delete *)

Lemma is_in_iff pks pk : is_in pks pk = true <-> In pk pks.
Proof.
  unfold is_in. rewrite existsb_exists. split.
  - intros (x & Hx & E). apply Z.eqb_eq in E. subst. exact Hx.
  - intros H. exists pk. rewrite Z.eqb_refl. auto.
Qed.

Lemma bool_eq_iff (a b : bool) : (a = true <-> b = true) -> a = b.
Proof. destruct a, b; intuition congruence. Qed.

Lemma filter_filter_absorb A (f g : A -> bool) (l : list A) :
  (forall x, In x l -> f x = true -> g x = true) -> filter f (filter g l) = filter f l.
Proof.
  induction l as [|x l IH]; simpl; [reflexivity|].
  intros H. destruct (g x) eqn:G, (f x) eqn:F; simpl; rewrite ?F.
  - f_equal. apply IH. auto.
  - apply IH. auto.
  - rewrite (H x) in G by auto. discriminate.
  - apply IH. auto.
Qed.

Lemma delete_cascade_computers c d :
  consistent d ->
  computers (delete_cascade c d) = filter (fun m => negb (owned_by c m)) (computers d).
Proof.
  intros C. cbn [delete_cascade computers]. apply filter_ext_in. intros m Hm. f_equal.
  apply bool_eq_iff. rewrite is_in_iff, in_map_iff. unfold computers_of, owned_by. split.
  - intros (m' & E & Hm'). apply filter_In in Hm'. destruct Hm' as [Hin Hown].
    assert (m' = m) by (eapply NoDup_map_eq; eauto using computer_ids_unique).
    subst. exact Hown.
  - intros H. exists m. split; [reflexivity|]. apply filter_In. auto.
Qed.

Lemma delete_cascade_ports c d :
  consistent d ->
  ports (delete_cascade c d) = filter (fun p => negb (under d c p)) (ports d).
Proof.
  intros C. cbn [delete_cascade ports]. apply filter_ext_in. intros p Hp. f_equal.
  apply bool_eq_iff. rewrite is_in_iff, in_map_iff. unfold under. rewrite existsb_exists.
  split.
  - intros (p' & E & Hp'). apply in_flat_map in Hp'. destruct Hp' as (m & Hm & Hpm).
    unfold computers_of in Hm. apply filter_In in Hm. destruct Hm as [Hin Hown].
    unfold ports_of in Hpm. apply filter_In in Hpm. destruct Hpm as [Hpin Hpm].
    assert (p' = p) by (eapply NoDup_map_eq; eauto using port_ids_unique).
    subst. exists m. split; [exact Hin|]. unfold owned_by. rewrite Hown, Hpm. reflexivity.
  - intros (m & Hin & H). apply andb_true_iff in H. destruct H as [Hown Hpm].
    exists p. split; [reflexivity|]. apply in_flat_map. exists m. split.
    + unfold computers_of. apply filter_In. auto.
    + unfold ports_of. apply filter_In. auto.
Qed.

Lemma delete_cascade_consistent c d : consistent d -> consistent (delete_cascade c d).
Proof.
  intros C.
  pose proof (delete_cascade_computers c C) as Hm.
  pose proof (delete_cascade_ports c C) as Hp.
  constructor; rewrite ?Hm, ?Hp.
  - apply NoDup_map_filter, C.
  - apply NoDup_map_filter, C.
  - apply NoDup_map_filter, C.
  - apply NoDup_map_filter, C.
  - apply NoDup_map_filter, C.
  - intros m H. apply filter_In in H. destruct H as [Hin Hown].
    destruct (proj1 (in_map_iff _ _ _) (computers_owned C m Hin)) as (c2 & E & Hc2).
    apply in_map_iff. exists c2. split; [exact E|].
    cbn [delete_cascade clients]. apply filter_In. split; [exact Hc2|].
    unfold owned_by in Hown. rewrite E. exact Hown.
  - intros p H. apply filter_In in H. destruct H as [Hin Hun].
    destruct (proj1 (in_map_iff _ _ _) (ports_owned C p Hin)) as (m & E & Hm').
    apply in_map_iff. exists m. split; [exact E|]. apply filter_In. split; [exact Hm'|].
    destruct (owned_by c m) eqn:Hown; [|reflexivity].
    exfalso. apply negb_true_iff in Hun.
    assert (under d c p = true); [|congruence].
    unfold under. apply existsb_exists. exists m. split; [exact Hm'|].
    rewrite Hown, E, Z.eqb_refl. reflexivity.
  - apply NoDup_map_filter, C.
Qed.

Lemma delete_client_consistent client_name d :
  consistent d -> consistent (snd (delete_client client_name d)).
Proof.
  intros C. rewrite delete_client_run.
  destruct (find _ (clients d)); [|exact C].
  apply delete_cascade_consistent. exact C.
Qed.

(** The clients that stay are listed as they were. *)
Lemma delete_cascade_view c d c2 :
  consistent d -> Client.id c2 <> Client.id c ->
  client_view (delete_cascade c d) c2 = client_view d c2.
Proof.
  intros C Hne. unfold client_view. f_equal. unfold computers_of.
  rewrite (delete_cascade_computers c C).
  rewrite filter_filter_absorb.
  2: { intros m _ H. apply Z.eqb_eq in H. unfold owned_by. rewrite H.
       apply negb_true_iff, Z.eqb_neq. exact Hne. }
  apply map_ext_in. intros m Hm. apply filter_In in Hm. destruct Hm as [Hin Hown].
  apply Z.eqb_eq in Hown.
  unfold computer_view. f_equal. f_equal. unfold ports_of.
  rewrite (delete_cascade_ports c C). f_equal.
  apply filter_filter_absorb. intros p _ Hp. apply Z.eqb_eq in Hp.
  apply negb_true_iff. destruct (under d c p) eqn:U; [|reflexivity].
  exfalso. unfold under in U. apply existsb_exists in U. destruct U as (m' & Hin' & H).
  apply andb_true_iff in H. destruct H as [Hown' Hpm']. apply Z.eqb_eq in Hpm'.
  assert (m' = m) by (eapply NoDup_map_eq; eauto using computer_ids_unique; congruence).
  subst m'. unfold owned_by in Hown'. apply Z.eqb_eq in Hown'. congruence.
Qed.

Lemma same_client_iff d c c2 :
  consistent d -> In c (clients d) -> In c2 (clients d) ->
  (Client.id c2 =? Client.id c)%Z = String.eqb (Client.name c2) (Client.name c).
Proof.
  intros C Hc Hc2. apply bool_eq_iff. rewrite Z.eqb_eq, String.eqb_eq. split; intros E.
  - assert (c2 = c) by (eapply NoDup_map_eq; eauto using client_ids_unique). congruence.
  - assert (c2 = c) by (eapply NoDup_map_eq; eauto using names_unique). congruence.
Qed.

Lemma delete_cascade_clients c d :
  consistent d -> In c (clients d) ->
  clients (delete_cascade c d)
  = filter (fun c2 => negb (String.eqb (Client.name c2) (Client.name c))) (clients d).
Proof.
  intros C Hc. cbn [delete_cascade clients]. apply filter_ext_in. intros c2 Hc2.
  f_equal. apply same_client_iff with (d := d); assumption.
Qed.

Lemma delete_cascade_listing c d :
  consistent d -> In c (clients d) ->
  listing (delete_cascade c d)
  = filter (fun v => negb (String.eqb (ClientView.client v) (Client.name c))) (listing d).
Proof.
  intros C Hc. unfold listing. rewrite delete_cascade_clients by assumption.
  assert (G : forall l, incl l (clients d) ->
    map (client_view (delete_cascade c d))
        (filter (fun c2 => negb (String.eqb (Client.name c2) (Client.name c))) l)
    = filter (fun v => negb (String.eqb (ClientView.client v) (Client.name c)))
             (map (client_view d) l)).
  { induction l as [|c2 l IH]; intros Hl; [reflexivity|].
    cbn [map filter]. cbn [client_view ClientView.client].
    assert (Hc2 : In c2 (clients d)) by (apply Hl; left; reflexivity).
    assert (Hl' : incl l (clients d)) by (intros x Hx; apply Hl; right; exact Hx).
    destruct (String.eqb (Client.name c2) (Client.name c)) eqn:E; cbn [negb map].
    - apply IH. exact Hl'.
    - rewrite IH by exact Hl'. f_equal.
      apply delete_cascade_view; [exact C|].
      rewrite <- (@same_client_iff d c c2 C Hc Hc2) in E. apply Z.eqb_neq. exact E. }
  apply G. apply incl_refl.
Qed.

Lemma get_all_clients_listing d :
  get_all_clients d
  = (Return match listing d with
            | [] => Message "No clients found"
            | _ :: _ => Listing (listing d)
            end, d).
Proof. rewrite get_all_clients_run. unfold listing. destruct (clients d); reflexivity. Qed.

Lemma find_unique A K (g : A -> K) (f : A -> bool) (l : list A) x :
  NoDup (map g l) -> In x l -> f x = true -> (forall y, f y = true -> g y = g x) ->
  find f l = Some x.
Proof.
  intros Hnd Hx Hfx Hf. destruct (find f l) as [y|] eqn:E.
  - apply find_some in E. destruct E as [Hy Hfy]. f_equal.
    eapply NoDup_map_eq; eauto.
  - rewrite (find_none _ _ E x Hx) in Hfx. discriminate.
Qed.

Lemma find_client_unique d c :
  consistent d -> In c (clients d) ->
  find (fun c' => String.eqb (Client.name c') (Client.name c)) (clients d) = Some c.
Proof.
  intros C Hc. apply find_unique with (g := Client.name); auto using names_unique.
  - apply String.eqb_refl.
  - intros y H. apply String.eqb_eq. exact H.
Qed.

Lemma computer_of_unique d m :
  consistent d -> In m (computers d) ->
  computer_of d (Computer.client_id m) (Computer.ip_address m) = Some m.
Proof.
  intros C Hm. unfold computer_of.
  apply find_unique with (g := Computer.ip_address); auto using ips_unique.
  - rewrite String.eqb_refl, Z.eqb_refl. reflexivity.
  - intros y H. apply andb_true_iff in H. destruct H as [H _].
    apply String.eqb_eq. exact H.
Qed.

Lemma reachable_consistent d : reachable d -> consistent d.
Proof.
  induction 1.
  - apply consistent_empty.
  - apply create_clients_consistent; assumption.
  - apply update_client_consistent; assumption.
  - apply delete_client_consistent; assumption.
Qed.

Lemma wf_data_acme : wf_data [acme].
Proof.
  repeat constructor; simpl; intuition discriminate.
Qed.

Lemma reachable_db_acme : reachable db_acme.
Proof. apply reachable_create; [apply reachable_empty | apply wf_data_acme]. Qed.

Lemma consistent_db_acme : consistent db_acme.
Proof. apply reachable_consistent, reachable_db_acme. Qed.

(** ** The claims on ports, deletion and the round trip *)

(** C9: in every database the routes can produce, a computer has at most one
    port row per port number: the pairs (computer_id, port_number) of the
    ports table are pairwise distinct, and two rows that agree on the pair
    are the same row. *)
Theorem port_numbers_unique d :
  reachable d ->
  NoDup (map port_key (ports d)) /\
  forall p q, In p (ports d) -> In q (ports d) ->
    Port.computer_id p = Port.computer_id q -> Port.port_number p = Port.port_number q ->
    p = q.
Proof.
  intros R. pose proof (port_keys_unique (reachable_consistent R)) as H.
  split; [exact H|]. intros p q Hp Hq E1 E2.
  apply (NoDup_map_eq port_key _ p q H Hp Hq). unfold port_key. congruence.
Qed.

(** The database of the example is reachable and has distinct port keys. *)
Lemma port_numbers_unique_witness :
  reachable db_acme /\ NoDup (map port_key (ports db_acme)).
Proof.
  split; [exact reachable_db_acme|].
  exact (proj1 (port_numbers_unique reachable_db_acme)).
Defined.

(** X16: on a consistent database, deleting an existing client succeeds and
    removes exactly the client's row, the computers it owns and the ports of
    those computers; list-all afterwards shows the other clients as before and
    nothing under the deleted name. *)
Theorem delete_client_cascade client_name d c :
  consistent d ->
  In c (clients d) -> Client.name c = client_name ->
  exists d',
    delete_client client_name d
    = (Return (Message (deleted_successfully client_name)), d') /\
    clients d'
    = filter (fun c2 => negb (String.eqb (Client.name c2) client_name)) (clients d) /\
    computers d' = filter (fun m => negb (owned_by c m)) (computers d) /\
    ports d' = filter (fun p => negb (under d c p)) (ports d) /\
    listing d'
    = filter (fun v => negb (String.eqb (ClientView.client v) client_name)) (listing d) /\
    ~ In client_name (map ClientView.client (listing d')) /\
    get_all_clients d'
    = (Return match listing d' with
              | [] => Message "No clients found"
              | _ :: _ => Listing (listing d')
              end, d').
Proof.
  intros C Hc Hn. subst client_name. exists (delete_cascade c d).
  rewrite delete_client_run, find_client_unique by assumption.
  split; [reflexivity|].
  split; [apply delete_cascade_clients; assumption|].
  split; [apply delete_cascade_computers; assumption|].
  split; [apply delete_cascade_ports; assumption|].
  assert (L : listing (delete_cascade c d)
              = filter (fun v => negb (String.eqb (ClientView.client v) (Client.name c)))
                       (listing d))
    by (apply delete_cascade_listing; assumption).
  split; [exact L|].
  split; [|apply get_all_clients_listing].
  rewrite L. intros Hin. apply in_map_iff in Hin. destruct Hin as (v & E & Hv).
  apply filter_In in Hv. destruct Hv as [_ Hv].
  rewrite E, String.eqb_refl in Hv. discriminate.
Qed.

(** Deleting acme empties the listing of the example. *)
Lemma delete_client_cascade_witness :
  consistent db_acme /\
  exists d',
    delete_client "acme" db_acme = (Return (Message (deleted_successfully "acme")), d') /\
    listing d' = [].
Proof.
  split; [exact consistent_db_acme|].
  destruct (@delete_client_cascade "acme" db_acme (Client.mk 1 "acme") consistent_db_acme)
    as (d' & H & _ & _ & _ & L & _ & _).
  - vm_compute. auto.
  - reflexivity.
  - exists d'. split; [exact H|]. rewrite L. reflexivity.
Defined.

(** C8, where the code departs from it: deleting a name that no client has
    leaves the database as it was, but the NotFound fault that line 186
    raises -- [HTTPException(404, "Client not found")] -- is caught by the
    [except Exception] clause of the same route (lines 191-193) and re-raised
    with status 500; what the caller receives is not a NotFound fault. *)
Theorem delete_client_not_found_is_500 client_name d :
  ~ In client_name (map Client.name (clients d)) ->
  delete_client client_name d
  = (Raise (HTTPException 500 (Str (HTTPException 404 (Detail "Client not found")))), d) /\
  NotFound (HTTPException 404 (Detail "Client not found")) /\
  ~ NotFound (HTTPException 500 (Str (HTTPException 404 (Detail "Client not found")))).
Proof.
  intros Hn. rewrite delete_client_run, find_client_None by assumption.
  split; [reflexivity|]. split; [constructor|]. intros H. inversion H.
Qed.

(** globex is not among the clients of the example. *)
Lemma delete_client_not_found_is_500_witness :
  delete_client "globex" db_acme
  = (Raise (HTTPException 500 (Str (HTTPException 404 (Detail "Client not found")))),
     db_acme).
Proof.
  apply (@delete_client_not_found_is_500 "globex" db_acme).
  vm_compute. intros [H|[]]. discriminate.
Defined.

(** C3, as the code has it: when [create_clients] accepts a non-empty,
    well-formed input on a consistent database, [get_all_clients] called next
    returns the client trees that were listed before, followed by the trees
    of the input in input order, each with all its computers and all their
    ports; on a database without clients that is exactly the input. *)
Theorem create_then_list data d r d' :
  consistent d -> wf_data data -> data <> [] ->
  create_clients data d = (Return r, d') ->
  get_all_clients d' = (Return (Listing (listing d ++ map listed_client data)), d') /\
  (clients d = [] ->
   get_all_clients d' = (Return (Listing (map listed_client data)), d')).
Proof.
  intros C Hwf Hne H. rewrite create_clients_run in H.
  destruct (foldM db_create_client data d) as [d1|e] eqn:F; [|discriminate].
  inversion H; subst; clear H.
  destruct (@db_create_clients_spec data d d' C Hwf F) as (_ & L).
  fold (listing d') in L. fold (listing d) in L.
  assert (G : get_all_clients d' = (Return (Listing (listing d ++ map listed_client data)), d')).
  { rewrite get_all_clients_listing, L.
    destruct (listing d ++ map listed_client data) eqn:E; [|reflexivity].
    apply app_eq_nil in E. destruct E as [_ E]. apply map_eq_nil in E. contradiction. }
  split; [exact G|].
  intros Hempty. rewrite G. unfold listing. rewrite Hempty. reflexivity.
Qed.

(** The example of the specification: acme is listed as it was posted. *)
Lemma create_then_list_witness :
  consistent empty_db /\ wf_data [acme] /\
  get_all_clients db_acme = (Return (Listing (map listed_client [acme])), db_acme).
Proof.
  split; [exact consistent_empty|]. split; [exact wf_data_acme|].
  refine (proj2 (@create_then_list [acme] empty_db
                   (Message "Clients and computers created successfully") db_acme
                   consistent_empty wf_data_acme _ _) eq_refl).
  - discriminate.
  - reflexivity.
Defined.

(** C3 as stated fails twice.  An empty input is accepted on the empty
    database and list-all then answers with a message, not with the empty
    input.  And on a database that holds acme, an input that only creates
    globex is accepted, and list-all returns two trees, acme's and
    globex's, not the input's one. *)
Lemma create_then_list_not_the_input :
  (create_clients [] empty_db
   = (Return (Message "Clients and computers created successfully"), empty_db) /\
   fst (get_all_clients empty_db) <> Return (Listing (map listed_client []))) /\
  (fst (create_clients [globex] db_acme)
   = Return (Message "Clients and computers created successfully") /\
   fst (get_all_clients (snd (create_clients [globex] db_acme)))
   = Return (Listing [listed_client acme; listed_client globex]) /\
   [listed_client acme; listed_client globex] <> map listed_client [globex]).
Proof.
  split; split; try reflexivity; try discriminate.
  split; [reflexivity|discriminate].
Qed.

(** ** Merge semantics and conflicts *)

(** C6: on a consistent database where client [c] owns computer [m], a
    patch that holds, for the address of [m], a latency and nothing else is
    answered with the confirmation message; afterwards [m] carries the new
    latency, and the clients, the ports and every other column and row of the
    computers are what they were. *)
Theorem update_client_latency_only d c m v :
  consistent d ->
  In c (clients d) -> In m (computers d) -> Computer.client_id m = Client.id c ->
  update_client (Client.name c)
    (UpdateData.mk (Some (Some [(Computer.ip_address m, ComputerData.mk (Some v) None None)]))) d
  = (Return (Message (updated_successfully (Client.name c))),
     mkDatabase (clients d)
                (map (fun r => if (Computer.id r =? Computer.id m)%Z
                               then with_latency v r else r)
                     (computers d))
                (ports d)).
Proof.
  intros C Hc Hm Hown.
  rewrite update_client_run, find_client_unique by assumption.
  cbn [UpdateData.computers get_or for_each for_items].
  unfold bind at 1, upsert_computer at 1, bind at 1, query_computer.
  cbn [SessionLocal tx].
  change (find _ (computers d)) with (computer_of d (Client.id c) (Computer.ip_address m)).
  rewrite <- Hown, computer_of_unique by assumption.
  unfold bind, set_latency, set_hostname, on_tx, ret.
  cbn [for_each for_items get_or ComputerData.latency ComputerData.hostname ComputerData.ports
       SessionLocal committed tx new_computers new_ports insert_computers insert_ports
       fold_left ret].
  unfold update_computers. cbn [clients computers ports].
  f_equal. f_equal.
  rewrite map_map. apply map_ext_in. intros r Hr.
  destruct (Computer.id r =? Computer.id m)%Z eqn:E; cbn [Computer.id with_latency].
  - rewrite E. apply Z.eqb_eq in E.
    assert (r = m) by (eapply NoDup_map_eq; eauto using computer_ids_unique).
    subst r. reflexivity.
  - rewrite E. reflexivity.
Qed.

(** The merge example of the specification: only the latency moves. *)
Lemma update_client_latency_only_witness :
  consistent db_acme /\
  update_client "acme"
    (UpdateData.mk (Some (Some [("10.0.0.1", ComputerData.mk (Some (Some "5ms")) None None)])))
    db_acme
  = (Return (Message "Client 'acme' updated successfully"),
     mkDatabase (clients db_acme)
                [Computer.mk 1 "10.0.0.1" (Some "5ms") (Some "web1") 1]
                (ports db_acme)).
Proof.
  split; [exact consistent_db_acme|].
  refine (@update_client_latency_only db_acme (Client.mk 1 "acme")
            (Computer.mk 1 "10.0.0.1" (Some "2ms") (Some "web1") 1) (Some "5ms")
            consistent_db_acme _ _ eq_refl).
  - vm_compute. auto.
  - vm_compute. auto.
Defined.


Lemma port_of_unique d p :
  consistent d -> In p (ports d) ->
  port_of d (Port.computer_id p) (Port.port_number p) = Some p.
Proof.
  intros C Hp. unfold port_of.
  apply find_unique with (g := port_key); auto using port_keys_unique.
  - rewrite Z.eqb_refl, String.eqb_refl. reflexivity.
  - intros q H. apply andb_true_iff in H. destruct H as [H1 H2].
    apply Z.eqb_eq in H1. apply String.eqb_eq in H2. unfold port_key. congruence.
Qed.

(** The port branch of [update_client] on a port that exists: a patch that
    repeats, for computer [m] of client [c], the number of its port [p] with a
    service name rewrites that service name and nothing else. *)
Lemma update_client_existing_port d c m p v :
  consistent d ->
  In c (clients d) -> In m (computers d) -> Computer.client_id m = Client.id c ->
  In p (ports d) -> Port.computer_id p = Computer.id m ->
  update_client (Client.name c)
    (UpdateData.mk
       (Some (Some [(Computer.ip_address m,
               ComputerData.mk None None (Some (Some [(Port.port_number p, v)])))]))) d
  = (Return (Message (updated_successfully (Client.name c))), overwrite_service p v d).
Proof.
  intros C Hc Hm Hown Hp Hpm.
  rewrite update_client_run, find_client_unique by assumption.
  cbn [UpdateData.computers get_or for_each for_items].
  unfold bind at 1, upsert_computer at 1, bind at 1, query_computer.
  cbn [SessionLocal tx].
  change (find _ (computers d)) with (computer_of d (Client.id c) (Computer.ip_address m)).
  rewrite <- Hown, computer_of_unique by assumption.
  cbn [ComputerData.latency ComputerData.hostname ComputerData.ports get_or for_each for_items].
  unfold bind at 1, set_latency at 1, on_tx at 1.
  unfold bind at 1, set_hostname at 1, on_tx at 1.
  unfold SessionLocal. cbn [committed tx new_computers new_ports].
  set (t := update_computers _ (Computer.id m) (update_computers _ (Computer.id m) d)).
  assert (Ht : t = d).
  { subst t. unfold update_computers. cbn [clients computers ports].
    destruct d as [cs ms ps]. cbn [clients computers ports] in *. f_equal.
    rewrite map_map. rewrite <- (map_id ms) at 2. apply map_ext_in. intros r Hr.
    destruct (Computer.id r =? Computer.id m)%Z eqn:E; cbn [Computer.id]; rewrite E;
      [|reflexivity].
    apply Z.eqb_eq in E.
    assert (r = m) by (eapply (NoDup_map_eq Computer.id); eauto using computer_ids_unique).
    subst r. destruct m; reflexivity. }
  rewrite Ht. clear t Ht.
  unfold bind at 1, upsert_port at 1, bind at 1, query_port. cbn [tx].
  change (find _ (ports d)) with (port_of d (Computer.id m) (Port.port_number p)).
  rewrite <- Hpm, port_of_unique by assumption.
  unfold set_service_name, on_tx, bind, ret.
  cbn [committed tx new_computers new_ports insert_computers insert_ports fold_left].
  reflexivity.
Qed.

(** X7: repeating such a patch changes nothing more: on a consistent
    database, a patch that names one existing port of a computer of the
    client gives, applied a second time, the same answer and the same
    database as the first time. *)
Lemma update_client_existing_port_twice d c m p v :
  consistent d ->
  In c (clients d) -> In m (computers d) -> Computer.client_id m = Client.id c ->
  In p (ports d) -> Port.computer_id p = Computer.id m ->
  let data :=
    UpdateData.mk
      (Some (Some [(Computer.ip_address m,
              ComputerData.mk None None (Some (Some [(Port.port_number p, v)])))])) in
  update_client (Client.name c) data (snd (update_client (Client.name c) data d))
  = update_client (Client.name c) data d.
Proof.
  intros C Hc Hm Hown Hp Hpm data. subst data.
  rewrite (@update_client_existing_port d c m p v) by assumption. cbn [snd].
  assert (K : same_keys d (overwrite_service p v d))
    by (apply (same_keys_update_ports (with_service_name v) (Port.id p) d); reflexivity).
  assert (Hp' : In (with_service_name v p) (ports (overwrite_service p v d))).
  { cbn [overwrite_service ports]. apply in_map_iff. exists p.
    rewrite Z.eqb_refl. auto. }
  pose proof (@update_client_existing_port (overwrite_service p v d) c m
                (with_service_name v p) v (consistent_same_keys K C) Hc Hm Hown Hp' Hpm) as H.
  cbn [with_service_name Port.port_number] in H. rewrite H. f_equal.
  unfold overwrite_service. cbn [clients computers ports Port.id]. f_equal.
  rewrite map_map. apply map_ext. intros q.
  destruct (Port.id q =? Port.id p)%Z eqn:E; cbn [with_service_name Port.id]; rewrite E;
    reflexivity.
Qed.

(** *** Why a bulk-create fails *)



Lemma invalid_entry_test x :
  negb (truthy_str (ClientData.client x)) || negb (truthy_dict (ClientData.computers x))
  = negb (valid_entry x).
Proof. unfold valid_entry. destruct (truthy_str _), (truthy_dict _); reflexivity. Qed.









Lemma foldM_app X (f : X -> Database -> result Database) (l1 l2 : list X) d :
  foldM f (l1 ++ l2) d
  = match foldM f l1 d with
    | Return d1 => foldM f l2 d1
    | Raise e => Raise e
    end.
Proof.
  revert d. induction l1 as [|x l1 IH]; intros d; cbn [app foldM]; [reflexivity|].
  destruct (f x d); [apply IH | reflexivity].
Qed.




(** *** Why a partial update fails *)








(** * Further properties of the routes *)

(** ** Faults *)

(** X1: whatever the route and the request, a fault leaves the database as
    it was, and the exception that reaches the caller is an [HTTPException]
    with status 500 that wraps the one raised inside the route: no route ever
    answers with the 400 or 404 it raises itself. *)
Theorem fault_is_500_and_rolled_back r d e d' :
  serve r d = (Raise e, d') ->
  d' = d /\ exists cause, e = HTTPException 500 (Str cause).
Proof.
  destruct r as [|data| |client_name data|client_name]; cbn [serve].
  - discriminate.
  - rewrite create_clients_run.
    destruct (foldM db_create_client data d); intros H; inversion H; subst.
    split; [reflexivity|]. eexists. reflexivity.
  - rewrite get_all_clients_run. discriminate.
  - rewrite update_client_run.
    destruct (find _ (clients d)).
    + destruct (get_or (UpdateData.computers data) (Some [])) as [computers|].
      * destruct (for_each computers _ _) as [[[]|e1] s1].
        -- destruct (insert_computers _ _); intros H; inversion H; subst.
           split; [reflexivity|]. eexists. reflexivity.
        -- intros H; inversion H; subst. split; [reflexivity|]. eexists. reflexivity.
      * intros H; inversion H; subst. split; [reflexivity|]. eexists. reflexivity.
    + intros H; inversion H; subst. split; [reflexivity|]. eexists. reflexivity.
  - rewrite delete_client_run.
    destruct (find _ (clients d)); intros H; inversion H; subst.
    split; [reflexivity|]. eexists. reflexivity.
Qed.

(** A delete on the empty database. *)
Lemma fault_is_500_and_rolled_back_witness :
  serve (DeleteClient "acme") empty_db
  = (Raise (HTTPException 500 (Str (HTTPException 404 (Detail "Client not found")))),
     empty_db)
  /\ exists cause,
       HTTPException 500 (Str (HTTPException 404 (Detail "Client not found")))
       = HTTPException 500 (Str cause).
Proof.
  split; [reflexivity|].
  exact (proj2 (@fault_is_500_and_rolled_back (DeleteClient "acme") empty_db _ empty_db
                  eq_refl)).
Defined.

(** X2: a partial update of a client name that no client has raises the
    "Client not found" exception (404 inside, 500 outside), whatever the
    patch, and changes nothing. *)
Theorem update_client_not_found client_name data d :
  ~ In client_name (map Client.name (clients d)) ->
  update_client client_name data d
  = (Raise (HTTPException 500 (Str (HTTPException 404 (Detail "Client not found")))), d).
Proof.
  intros H. rewrite update_client_run, find_client_None by assumption. reflexivity.
Qed.

(** globex is not in the database of the example. *)
Lemma update_client_not_found_witness :
  update_client "globex" patch_new_host db_acme
  = (Raise (HTTPException 500 (Str (HTTPException 404 (Detail "Client not found")))),
     db_acme).
Proof.
  apply update_client_not_found. vm_compute. intros [H|[]]. discriminate.
Defined.

(** X3: when a bulk-create input holds an entry without a client name or
    without computers (missing, null or empty), and the entries before it
    would have been accepted on their own, the call raises "Invalid data
    format" and nothing is stored, not even the entries before it. *)
Theorem create_clients_invalid_entry pre x post d r d1 :
  create_clients pre d = (Return r, d1) ->
  valid_entry x = false ->
  create_clients (pre ++ x :: post) d
  = (Raise (HTTPException 500 (Str (HTTPException 400 (Detail "Invalid data format")))), d).
Proof.
  intros Hpre Hx. rewrite create_clients_run in *. rewrite foldM_app.
  destruct (foldM db_create_client pre d) as [d2|e]; [|discriminate].
  cbn [foldM]. unfold db_create_client at 1. rewrite invalid_entry_test, Hx. reflexivity.
Qed.

(** acme is fine, the entry after it has an empty computers mapping. *)
Lemma create_clients_invalid_entry_witness :
  create_clients [acme; globex_without_computers; globex] empty_db
  = (Raise (HTTPException 500 (Str (HTTPException 400 (Detail "Invalid data format")))),
     empty_db).
Proof.
  apply (@create_clients_invalid_entry [acme] globex_without_computers [globex] empty_db
           (Message "Clients and computers created successfully") db_acme);
    reflexivity.
Defined.

(** ** Invariants of the stored data *)

(** X4: in every database the routes can produce, client names are pairwise
    distinct, IP addresses are pairwise distinct over all clients, every
    computer belongs to exactly one client that exists, and every port to
    exactly one computer that exists. *)
Theorem reachable_hierarchy d :
  reachable d ->
  NoDup (map Client.name (clients d)) /\
  NoDup (map Computer.ip_address (computers d)) /\
  (forall m, In m (computers d) ->
     exists c, In c (clients d) /\ Client.id c = Computer.client_id m /\
               forall c', In c' (clients d) -> Client.id c' = Computer.client_id m -> c' = c) /\
  (forall p, In p (ports d) ->
     exists m, In m (computers d) /\ Computer.id m = Port.computer_id p /\
               forall m', In m' (computers d) -> Computer.id m' = Port.computer_id p -> m' = m).
Proof.
  intros R. pose proof (reachable_consistent R) as C.
  split; [apply C|]. split; [apply C|]. split.
  - intros m Hm. destruct (proj1 (in_map_iff _ _ _) (computers_owned C m Hm)) as (c & E & Hc).
    exists c. split; [exact Hc|]. split; [exact E|].
    intros c' Hc' E'. eapply (NoDup_map_eq Client.id); eauto using client_ids_unique.
    congruence.
  - intros p Hp. destruct (proj1 (in_map_iff _ _ _) (ports_owned C p Hp)) as (m & E & Hm).
    exists m. split; [exact Hm|]. split; [exact E|].
    intros m' Hm' E'. eapply (NoDup_map_eq Computer.id); eauto using computer_ids_unique.
    congruence.
Qed.

(** The database of the example. *)
Lemma reachable_hierarchy_witness :
  reachable db_acme /\ NoDup (map Computer.ip_address (computers db_acme)).
Proof.
  split; [exact reachable_db_acme|].
  exact (proj1 (proj2 (reachable_hierarchy reachable_db_acme))).
Defined.

(** ** Partial update, one computer at a time *)

Lemma update_fields_of_itself d m :
  consistent d -> In m (computers d) ->
  update_computers
    (fun m0 => Computer.mk (Computer.id m0) (Computer.ip_address m0) (Computer.latency m0)
                           (Computer.hostname m) (Computer.client_id m0))
    (Computer.id m)
    (update_computers
       (fun m0 => Computer.mk (Computer.id m0) (Computer.ip_address m0) (Computer.latency m)
                              (Computer.hostname m0) (Computer.client_id m0))
       (Computer.id m) d)
  = d.
Proof.
  intros C Hm. unfold update_computers. cbn [clients computers ports].
  destruct d as [cs ms ps]. cbn [clients computers ports] in *. f_equal.
  rewrite map_map. rewrite <- (map_id ms) at 2. apply map_ext_in. intros r Hr.
  destruct (Computer.id r =? Computer.id m)%Z eqn:E; cbn [Computer.id]; rewrite E;
    [|reflexivity].
  apply Z.eqb_eq in E.
  assert (r = m) by (eapply (NoDup_map_eq Computer.id); eauto using computer_ids_unique).
  subst r. destruct m; reflexivity.
Qed.

(** X5: for a computer [m] of client [c], a patch that names its address
    and brings no ports merges field by field: [latency] and [hostname] take
    the value of the patch when the key is there -- a null included, which
    clears the column -- and keep the stored value when it is not; no other
    row or column changes. *)
Theorem update_client_merges_fields d c m computer_data :
  consistent d ->
  In c (clients d) -> In m (computers d) -> Computer.client_id m = Client.id c ->
  get_or (ComputerData.ports computer_data) (Some []) = Some [] ->
  update_client (Client.name c)
    (UpdateData.mk (Some (Some [(Computer.ip_address m, computer_data)]))) d
  = (Return (Message (updated_successfully (Client.name c))),
     mkDatabase (clients d)
                (map (fun r => if (Computer.id r =? Computer.id m)%Z
                               then merge_fields computer_data r else r)
                     (computers d))
                (ports d)).
Proof.
  intros C Hc Hm Hown Hports.
  rewrite update_client_run, find_client_unique by assumption.
  cbn [UpdateData.computers get_or for_each for_items].
  unfold bind at 1, upsert_computer at 1, bind at 1, query_computer.
  cbn [SessionLocal tx].
  change (find _ (computers d)) with (computer_of d (Client.id c) (Computer.ip_address m)).
  rewrite <- Hown, computer_of_unique by assumption.
  rewrite Hports.
  unfold bind, set_latency, set_hostname, on_tx, ret, SessionLocal.
  cbn [for_each for_items committed tx new_computers new_ports insert_computers insert_ports
       fold_left ret].
  unfold update_computers. cbn [clients computers ports].
  f_equal. f_equal.
  rewrite map_map. apply map_ext_in. intros r Hr.
  destruct (Computer.id r =? Computer.id m)%Z eqn:E; cbn [Computer.id merge_fields].
  - rewrite E. apply Z.eqb_eq in E.
    assert (r = m) by (eapply NoDup_map_eq; eauto using computer_ids_unique).
    subst r. reflexivity.
  - rewrite E. reflexivity.
Qed.

(** A null latency clears the column, the hostname is not in the patch. *)
Lemma update_client_merges_fields_witness :
  consistent db_acme /\
  update_client "acme"
    (UpdateData.mk (Some (Some [("10.0.0.1", ComputerData.mk (Some None) None None)]))) db_acme
  = (Return (Message "Client 'acme' updated successfully"),
     mkDatabase (clients db_acme)
                [Computer.mk 1 "10.0.0.1" None (Some "web1") 1]
                (ports db_acme)).
Proof.
  split; [exact consistent_db_acme|].
  refine (@update_client_merges_fields db_acme (Client.mk 1 "acme")
            (Computer.mk 1 "10.0.0.1" (Some "2ms") (Some "web1") 1)
            (ComputerData.mk (Some None) None None)
            consistent_db_acme _ _ eq_refl eq_refl).
  - vm_compute. auto.
  - vm_compute. auto.
Defined.

Lemma update_client_absent_port d c m num svc :
  consistent d ->
  In c (clients d) -> In m (computers d) -> Computer.client_id m = Client.id c ->
  port_of d (Computer.id m) num = None ->
  update_client (Client.name c)
    (UpdateData.mk
       (Some (Some [(Computer.ip_address m,
                     ComputerData.mk None None (Some (Some [(num, svc)])))]))) d
  = (Return (Message (updated_successfully (Client.name c))),
     mkDatabase (clients d) (computers d)
                (ports d ++ [Port.mk (next_id (map Port.id (ports d))) num svc
                                     (Computer.id m)])).
Proof.
  intros C Hc Hm Hown Hnone.
  rewrite update_client_run, find_client_unique by assumption.
  cbn [UpdateData.computers get_or for_each for_items].
  unfold bind at 1, upsert_computer at 1, bind at 1, query_computer.
  cbn [SessionLocal tx].
  change (find _ (computers d)) with (computer_of d (Client.id c) (Computer.ip_address m)).
  rewrite <- Hown, computer_of_unique by assumption.
  cbn [ComputerData.latency ComputerData.hostname ComputerData.ports get_or for_each for_items].
  unfold bind at 1, set_latency at 1, on_tx at 1.
  unfold bind at 1, set_hostname at 1, on_tx at 1.
  unfold SessionLocal. cbn [committed tx new_computers new_ports].
  rewrite update_fields_of_itself by assumption.
  unfold bind at 1, upsert_port at 1, bind at 1, query_port. cbn [tx].
  change (find _ (ports d)) with (port_of d (Computer.id m) num).
  rewrite Hnone.
  unfold add_port, bind, ret.
  cbn [committed tx new_computers new_ports app insert_computers insert_ports fold_left
       insert_port].
  reflexivity.
Qed.

(** X6: for a computer [m] of client [c], a patch that names its address
    and one port number is an upsert on the pair (computer, port number): when
    the computer has a port row with that number the row takes the service
    name of the patch, otherwise one port row is appended for the computer;
    clients and computers stay as they are. *)
Theorem update_client_port_upsert d c m num svc :
  consistent d ->
  In c (clients d) -> In m (computers d) -> Computer.client_id m = Client.id c ->
  update_client (Client.name c)
    (UpdateData.mk
       (Some (Some [(Computer.ip_address m,
                     ComputerData.mk None None (Some (Some [(num, svc)])))]))) d
  = (Return (Message (updated_successfully (Client.name c))),
     match port_of d (Computer.id m) num with
     | Some p => overwrite_service p svc d
     | None =>
         mkDatabase (clients d) (computers d)
                    (ports d ++ [Port.mk (next_id (map Port.id (ports d))) num svc
                                         (Computer.id m)])
     end).
Proof.
  intros C Hc Hm Hown.
  destruct (port_of d (Computer.id m) num) as [p|] eqn:Hp.
  - apply find_some in Hp. destruct Hp as [Hin Hp].
    apply andb_true_iff in Hp. destruct Hp as [H1 H2].
    apply Z.eqb_eq in H1. apply String.eqb_eq in H2. subst num.
    apply update_client_existing_port; assumption.
  - apply update_client_absent_port; assumption.
Qed.

(** The example of the specification: port 22 is new on 10.0.0.1, and
    port 80 gets another service name. *)
Lemma update_client_port_upsert_witness :
  consistent db_acme /\
  snd (update_client "acme"
         (UpdateData.mk
            (Some (Some [("10.0.0.1", ComputerData.mk None None (Some (Some [("22", "ssh")])))])))
         db_acme)
  = mkDatabase (clients db_acme) (computers db_acme)
               (ports db_acme ++ [Port.mk 3 "22" "ssh" 1]) /\
  snd (update_client "acme"
         (UpdateData.mk
            (Some (Some [("10.0.0.1", ComputerData.mk None None (Some (Some [("80", "nginx")])))])))
         db_acme)
  = mkDatabase (clients db_acme) (computers db_acme)
               [Port.mk 1 "80" "nginx" 1; Port.mk 2 "443" "https" 1].
Proof.
  split; [exact consistent_db_acme|].
  assert (Hc : In (Client.mk 1 "acme") (clients db_acme)) by (vm_compute; auto).
  assert (Hm : In (Computer.mk 1 "10.0.0.1" (Some "2ms") (Some "web1") 1)
                  (computers db_acme)) by (vm_compute; auto).
  split.
  - exact (f_equal snd (@update_client_port_upsert db_acme _ _ "22" "ssh"
                          consistent_db_acme Hc Hm eq_refl)).
  - exact (f_equal snd (@update_client_port_upsert db_acme _ _ "80" "nginx"
                          consistent_db_acme Hc Hm eq_refl)).
Defined.

(** Port 80 of the example, patched twice. *)
Lemma update_client_existing_port_twice_witness :
  consistent db_acme /\
  update_client "acme"
    (UpdateData.mk
       (Some (Some [("10.0.0.1",
                     ComputerData.mk None None (Some (Some [("80", "nginx")])))])))
    (snd (update_client "acme"
            (UpdateData.mk
               (Some (Some [("10.0.0.1",
                             ComputerData.mk None None (Some (Some [("80", "nginx")])))])))
            db_acme))
  = update_client "acme"
      (UpdateData.mk
         (Some (Some [("10.0.0.1",
                       ComputerData.mk None None (Some (Some [("80", "nginx")])))])))
      db_acme.
Proof.
  split; [exact consistent_db_acme|].
  refine (@update_client_existing_port_twice db_acme (Client.mk 1 "acme")
            (Computer.mk 1 "10.0.0.1" (Some "2ms") (Some "web1") 1)
            (Port.mk 1 "80" "http" 1) "nginx" consistent_db_acme _ _ eq_refl _ eq_refl).
  - vm_compute. auto.
  - vm_compute. auto.
  - vm_compute. auto.
Defined.


(** ** What a partial update never does *)

Lemma insert_computers_grow l d d' :
  insert_computers l d = Return d' ->
  clients d' = clients d /\ ports d' = ports d /\
  exists added,
    computers d' = computers d ++ added /\
    map Computer.client_id added = map new_computer_client l /\
    map Computer.ip_address added = map new_computer_ip l.
Proof.
  revert d. induction l as [|[ip lat host cid] l IH]; intros d; cbn [insert_computers].
  - intros H. inversion H; subst. split; [reflexivity|]. split; [reflexivity|].
    exists []. rewrite app_nil_r. auto.
  - destruct (insert_computer (Computer_ ip lat host cid) d) as [[i d1]|e] eqn:H1;
      [|discriminate].
    intros H. apply IH in H. destruct H as (Hc & Hp & added & Hm & Hcid & Hip).
    apply insert_computer_inv in H1. destruct H1 as (_ & Hd1 & _). subst d1.
    cbn [clients computers ports] in *.
    split; [exact Hc|]. split; [exact Hp|].
    exists (Computer.mk i ip lat host cid :: added). split; [|split].
    + rewrite Hm, <- app_assoc. reflexivity.
    + cbn [map Computer.client_id new_computer_client]. congruence.
    + cbn [map Computer.ip_address new_computer_ip]. congruence.
Qed.

(** X9: a partial update that succeeds never creates, renames or removes a
    client, never removes a computer or a port, and never changes the id, the
    address or the owner of a computer, nor the id, the computer or the number
    of a port: the rows that were there keep these columns and their order,
    and the rows that come after them are new computers of the target client
    and new ports. *)
Theorem update_client_keeps_rows client_name data d r d' :
  update_client client_name data d = (Return r, d') ->
  clients d' = clients d /\
  exists c added_computers added_ports,
    In c (clients d) /\ Client.name c = client_name /\
    map computer_key (computers d')
    = map computer_key (computers d) ++ map computer_key added_computers /\
    Forall (fun m => Computer.client_id m = Client.id c) added_computers /\
    map port_ident (ports d') = map port_ident (ports d) ++ map port_ident added_ports.
Proof.
  intros H.
  destruct (find (fun c => String.eqb (Client.name c) client_name) (clients d))
    as [c|] eqn:Hc.
  2: { rewrite update_client_run, Hc in H. discriminate. }
  destruct (@update_client_typed_or_null client_name data d c Hc) as [[Hnn Hty]|Hnull].
  2: { rewrite Hnull in H. discriminate. }
  destruct (@update_client_commit client_name data d c Hc Hnn Hty)
    as (t & (Kc & Km & Kp) & Hrun).
  rewrite Hrun in H. clear Hrun.
  set (items := get_or (get (UpdateData.computers data)) []) in *.
  destruct (insert_computers (pending_computers d c items) t) as [d1|e] eqn:Hins;
    [|discriminate].
  inversion H; subst; clear H.
  apply insert_computers_grow in Hins.
  destruct Hins as (Hc1 & Hp1 & added & Hm1 & Hcid & _).
  destruct (ports_insert_ports (pending_ports d c items) d1) as (rows & Hrows & _).
  split; [rewrite clients_insert_ports; congruence|].
  apply find_some in Hc. destruct Hc as [Hin Hname]. apply String.eqb_eq in Hname.
  exists c, added, rows. split; [exact Hin|]. split; [exact Hname|].
  split; [|split].
  - rewrite computers_insert_ports, Hm1, map_app, Km. reflexivity.
  - apply Forall_forall. intros m Hm.
    apply (in_map Computer.client_id) in Hm. rewrite Hcid in Hm.
    unfold pending_computers in Hm. rewrite map_map in Hm.
    apply in_map_iff in Hm. destruct Hm as (it & E & _). symmetry. exact E.
  - rewrite Hrows, map_app, Hp1, Kp. reflexivity.
Qed.

(** The port added to the example. *)
Lemma update_client_keeps_rows_witness :
  clients (snd (update_client "acme" patch_new_host db_acme)) = clients db_acme.
Proof.
  exact (proj1 (@update_client_keeps_rows "acme" patch_new_host db_acme
                  (Message "Client 'acme' updated successfully")
                  (snd (update_client "acme" patch_new_host db_acme)) eq_refl)).
Defined.

(** ** When a bulk-create is accepted *)








(** ** When a partial update is accepted *)





(** ** Creating a client and deleting it again *)

Lemma db_create_computers_rows cid items d d' :
  foldM (db_create_computer cid) items d = Return d' ->
  clients d' = clients d /\
  exists ms ps,
    computers d' = computers d ++ ms /\ ports d' = ports d ++ ps /\
    (forall m, In m ms ->
       Computer.client_id m = cid /\ ~ In (Computer.id m) (map Computer.id (computers d))) /\
    (forall p, In p ps -> In (Port.computer_id p) (map Computer.id ms)).
Proof.
  revert d. induction items as [|[ip cd] items IH]; intros d; cbn [foldM].
  - intros H. inversion H; subst. split; [reflexivity|].
    exists [], []. rewrite !app_nil_r.
    split; [reflexivity|]. split; [reflexivity|]. split; intros ? [].
  - destruct (db_create_computer cid (ip, cd) d) as [d1|e] eqn:H1; [|discriminate].
    intros H. apply IH in H. destruct H as (Hc & ms & ps & Hm & Hp & Hms & Hps).
    apply db_create_computer_inv in H1. destruct H1 as (i & d2 & H2 & _ & Hd1). subst d1.
    unfold new_computer_of in H2. cbn [fst snd] in *.
    apply insert_computer_inv in H2. destruct H2 as (Hi & Hd2 & _).
    destruct (ports_insert_ports
                (new_ports_of i (get_or (get (ComputerData.ports cd)) [])) d2)
      as (rows & Hrows & Hcontent).
    rewrite new_ports_of_content in Hcontent.
    destruct (rows_of_content _ _ _ Hcontent) as (Hrows_i & _).
    rewrite clients_insert_ports in Hc. rewrite computers_insert_ports in Hm, Hms.
    rewrite Hrows in Hp. subst d2. cbn [clients computers ports] in *.
    split; [exact Hc|].
    set (m0 := Computer.mk i ip (get (ComputerData.latency cd))
                           (get (ComputerData.hostname cd)) cid) in *.
    exists (m0 :: ms), (rows ++ ps). split; [|split; [|split]].
    + rewrite Hm, <- app_assoc. reflexivity.
    + rewrite Hp, <- app_assoc. reflexivity.
    + intros m [E|Hin].
      * subst m. split; [reflexivity|]. cbn [m0 Computer.id]. subst i. apply next_id_fresh.
      * destruct (Hms m Hin) as [H1 H2]. split; [exact H1|].
        intros H. apply H2. rewrite map_app. apply in_or_app. auto.
    + intros p Hin. apply in_app_or in Hin. destruct Hin as [Hin|Hin].
      * left. rewrite (Hrows_i p Hin). reflexivity.
      * right. apply Hps. exact Hin.
Qed.

Lemma db_create_client_rows x d d' :
  db_create_client x d = Return d' ->
  exists i ms ps,
    clients d' = clients d ++ [Client.mk i (entry_name x)] /\
    ~ In i (map Client.id (clients d)) /\
    computers d' = computers d ++ ms /\ ports d' = ports d ++ ps /\
    (forall m, In m ms ->
       Computer.client_id m = i /\ ~ In (Computer.id m) (map Computer.id (computers d))) /\
    (forall p, In p ps -> In (Port.computer_id p) (map Computer.id ms)).
Proof.
  unfold db_create_client. rewrite invalid_entry_test.
  destruct (valid_entry x); cbn [negb]; [|discriminate].
  destruct (find _ (clients d)); [discriminate|].
  fold (entry_name x).
  destruct (insert_client (entry_name x) d) as [[i d1]|e1] eqn:H1; [|discriminate].
  intros H. apply db_create_computers_rows in H.
  destruct H as (Hc & ms & ps & Hm & Hp & Hms & Hps).
  apply insert_client_inv in H1. destruct H1 as (Hi & Hd1 & _). subst d1.
  cbn [clients computers ports] in *.
  exists i, ms, ps. split; [exact Hc|]. split; [subst i; apply next_id_fresh|]. auto.
Qed.

(** X12: deleting a client undoes its creation.  When a bulk-create of a
    single entry is accepted on a consistent database, deleting that client
    right after succeeds and leaves exactly the database from before the
    bulk-create: every row the bulk-create wrote is gone and no other row
    has moved. *)
Theorem create_then_delete x d r d1 :
  consistent d -> wf_computers (ClientData.computers x) ->
  create_clients [x] d = (Return r, d1) ->
  delete_client (entry_name x) d1
  = (Return (Message (deleted_successfully (entry_name x))), d).
Proof.
  intros C Hwf H. rewrite create_clients_run in H. cbn [foldM] in H.
  destruct (db_create_client x d) as [d2|e] eqn:H1; [|discriminate].
  inversion H; subst; clear H.
  destruct (@db_create_client_spec x d d1 C Hwf H1) as (C1 & Hn & _).
  fold (entry_name x) in Hn.
  destruct (db_create_client_rows _ _ H1) as (i & ms & ps & Hc & Hi & Hm & Hp & Hms & Hps).
  set (c := Client.mk i (entry_name x)) in *.
  assert (Hin : In c (clients d1)) by (rewrite Hc; apply in_or_app; right; left; reflexivity).
  rewrite delete_client_run.
  change (entry_name x) with (Client.name c) at 1.
  rewrite find_client_unique by assumption.
  f_equal.
  assert (Eclients : clients (delete_cascade c d1) = clients d).
  { rewrite delete_cascade_clients by assumption. rewrite Hc, filter_app.
    cbn [filter Client.name c]. rewrite String.eqb_refl. cbn [negb].
    rewrite app_nil_r. apply filter_all. intros c2 Hc2.
    apply negb_true_iff, String.eqb_neq. intros E. apply Hn. rewrite <- E.
    apply in_map. exact Hc2. }
  assert (Hold : forall m, In m (computers d) -> owned_by c m = false).
  { intros m Hm0. unfold owned_by. cbn [c Client.id]. apply Z.eqb_neq. intros E.
    apply Hi. rewrite <- E. apply (computers_owned C). exact Hm0. }
  assert (Hnew : forall m, In m ms -> owned_by c m = true).
  { intros m Hm0. unfold owned_by. cbn [c Client.id]. apply Z.eqb_eq. apply Hms. exact Hm0. }
  assert (Ecomputers : computers (delete_cascade c d1) = computers d).
  { rewrite delete_cascade_computers by assumption. rewrite Hm, filter_app.
    rewrite (filter_all _ (computers d)), (filter_none _ ms), app_nil_r; [reflexivity| |].
    - intros m Hm0. rewrite Hnew by assumption. reflexivity.
    - intros m Hm0. rewrite Hold by assumption. reflexivity. }
  assert (Eports : ports (delete_cascade c d1) = ports d).
  { rewrite delete_cascade_ports by assumption. rewrite Hp, filter_app.
    rewrite (filter_all _ (ports d)), (filter_none _ ps), app_nil_r; [reflexivity| |].
    - intros p Hp0. apply negb_false_iff. unfold under. apply existsb_exists.
      destruct (proj1 (in_map_iff _ _ _) (Hps p Hp0)) as (m & E & Hm0).
      exists m. split; [rewrite Hm; apply in_or_app; auto|].
      rewrite Hnew by assumption. rewrite E, Z.eqb_refl. reflexivity.
    - intros p Hp0. apply negb_true_iff. apply not_true_is_false. intros U.
      unfold under in U. apply existsb_exists in U. destruct U as (m & Hm0 & U).
      apply andb_true_iff in U. destruct U as [U1 U2]. apply Z.eqb_eq in U2.
      rewrite Hm in Hm0. apply in_app_or in Hm0. destruct Hm0 as [Hm0|Hm0].
      + rewrite Hold in U1 by assumption. discriminate.
      + apply (proj2 (Hms m Hm0)). rewrite <- U2. apply (ports_owned C). exact Hp0. }
  destruct d as [cs0 ms0 ps0]. cbn [clients computers ports] in *.
  destruct (delete_cascade c d1) as [cs' ms' ps']. cbn [clients computers ports] in *.
  congruence.
Qed.

(** globex is created beside acme and deleted again. *)
Lemma create_then_delete_witness :
  consistent db_acme /\
  delete_client "globex" (snd (create_clients [globex] db_acme))
  = (Return (Message "Client 'globex' deleted successfully"), db_acme).
Proof.
  split; [exact consistent_db_acme|].
  refine (@create_then_delete globex db_acme
            (Message "Clients and computers created successfully")
            (snd (create_clients [globex] db_acme)) consistent_db_acme _ eq_refl).
  repeat constructor; simpl; intuition discriminate.
Defined.

(** ** The listing against the tables *)

Lemma filter_split_permutation A (f : A -> bool) (l : list A) :
  Permutation (filter f l ++ filter (fun x => negb (f x)) l) l.
Proof.
  induction l as [|x l IH]; cbn [filter]; [constructor|].
  destruct (f x); cbn [negb app].
  - constructor. exact IH.
  - apply Permutation_sym. eapply Permutation_trans; [|apply Permutation_middle].
    constructor. apply Permutation_sym. exact IH.
Qed.

Lemma flat_map_ext_in A B (f g : A -> list B) (l : list A) :
  (forall a, In a l -> f a = g a) -> flat_map f l = flat_map g l.
Proof.
  induction l as [|x l IH]; intros H; cbn [flat_map]; [reflexivity|].
  rewrite (H x) by (left; reflexivity). f_equal. apply IH. intros a Ha. apply H.
  right. exact Ha.
Qed.

Lemma flat_map_of_map A B C (f : A -> B) (g : B -> list C) (l : list A) :
  flat_map g (map f l) = flat_map (fun x => g (f x)) l.
Proof.
  induction l as [|x l IH]; cbn [map flat_map]; [reflexivity|]. rewrite IH. reflexivity.
Qed.

Lemma map_of_flat_map A B C (f : A -> list B) (h : B -> C) (l : list A) :
  map h (flat_map f l) = flat_map (fun x => map h (f x)) l.
Proof.
  induction l as [|x l IH]; cbn [map flat_map]; [reflexivity|].
  rewrite map_app, IH. reflexivity.
Qed.

(** Rows that each point to one of a list of owners with distinct keys,
    grouped owner by owner, are the rows of the table in another order. *)
Lemma grouped_by_owner A B (key : A -> Z) (ref : B -> Z) (owners : list A) (items : list B) :
  NoDup (map key owners) ->
  (forall b, In b items -> In (ref b) (map key owners)) ->
  Permutation (flat_map (fun a => filter (fun b => (ref b =? key a)%Z) items) owners) items.
Proof.
  revert items. induction owners as [|a owners IH]; intros items N Hcover.
  - destruct items as [|b items]; [constructor|].
    exfalso. apply (Hcover b). left; reflexivity.
  - cbn [map] in N. inversion N as [|? ? Ha Nrest]; subst.
    cbn [flat_map].
    set (rest := filter (fun b => negb (ref b =? key a)%Z) items).
    rewrite (flat_map_ext_in
               (fun a' => filter (fun b => (ref b =? key a')%Z) items)
               (fun a' => filter (fun b => (ref b =? key a')%Z) rest)).
    + eapply Permutation_trans; [|apply (filter_split_permutation
                                           (fun b => (ref b =? key a)%Z) items)].
      apply Permutation_app_head. apply IH; [exact Nrest|].
      intros b Hb. apply filter_In in Hb. destruct Hb as [Hb Hne].
      destruct (Hcover b Hb) as [E|Hin]; [|exact Hin].
      apply negb_true_iff, Z.eqb_neq in Hne. congruence.
    + intros a' Ha'. symmetry. apply filter_filter_absorb.
      intros b _ Hb. apply Z.eqb_eq in Hb. apply negb_true_iff, Z.eqb_neq.
      intros E. apply Ha. rewrite <- E, Hb. apply in_map. exact Ha'.
Qed.

(** The computers in the order of the listing. *)
Lemma computers_in_listing_order d :
  consistent d ->
  Permutation (flat_map (computers_of d) (clients d)) (computers d).
Proof.
  intros C. unfold computers_of.
  apply (grouped_by_owner Client.id Computer.client_id); [apply C|].
  intros m Hm. apply (computers_owned C). exact Hm.
Qed.

Lemma ports_in_listing_order d :
  consistent d ->
  Permutation (flat_map (ports_of d) (flat_map (computers_of d) (clients d))) (ports d).
Proof.
  intros C. pose proof (computers_in_listing_order C) as P. unfold ports_of.
  apply (grouped_by_owner Computer.id Port.computer_id).
  - apply (Permutation_NoDup (Permutation_sym (Permutation_map Computer.id P))). apply C.
  - intros p Hp.
    apply (Permutation_in _ (Permutation_sym (Permutation_map Computer.id P))).
    apply (ports_owned C). exact Hp.
Qed.

Lemma listed_ips_listing d :
  listed_ips (listing d)
  = map Computer.ip_address (flat_map (computers_of d) (clients d)).
Proof.
  unfold listed_ips, listing. rewrite flat_map_of_map, map_of_flat_map.
  apply flat_map_ext. intros c. cbn [client_view ClientView.computers].
  rewrite map_map. reflexivity.
Qed.

(** X13: on a consistent database list-all shows every computer exactly
    once: the addresses in the listing, client after client, are the
    addresses of the computers table in another order, and none is
    repeated. *)
Theorem listing_shows_every_computer_once d :
  consistent d ->
  Permutation (listed_ips (listing d)) (map Computer.ip_address (computers d)) /\
  NoDup (listed_ips (listing d)).
Proof.
  intros C.
  assert (P : Permutation (listed_ips (listing d)) (map Computer.ip_address (computers d))).
  { rewrite listed_ips_listing. apply Permutation_map. apply computers_in_listing_order.
    exact C. }
  split; [exact P|].
  apply (Permutation_NoDup (Permutation_sym P)). apply C.
Qed.

(** The database with acme and globex. *)
Lemma listing_shows_every_computer_once_witness :
  consistent db_two /\ NoDup (listed_ips (listing db_two)).
Proof.
  assert (C : consistent db_two).
  { apply create_clients_consistent; [apply consistent_empty|].
    repeat constructor; simpl; intuition discriminate. }
  split; [exact C|]. exact (proj2 (listing_shows_every_computer_once C)).
Defined.

Lemma port_numbers_of_computer_unique d m :
  consistent d ->
  NoDup (map Port.port_number (ports_of d m)).
Proof.
  intros C. unfold ports_of.
  pose proof (NoDup_map_filter port_key
                (fun p => (Port.computer_id p =? Computer.id m)%Z) (ports d)
                (port_keys_unique C)) as N.
  set (l := filter _ (ports d)) in *.
  assert (Hl : forall p, In p l -> Port.computer_id p = Computer.id m).
  { intros p Hp. apply filter_In in Hp. apply Z.eqb_eq. tauto. }
  clearbody l. induction l as [|p l IH]; [constructor|].
  cbn [map] in *. inversion N as [|? ? Hp Nl]; subst. constructor.
  - intros Hin. apply Hp. apply in_map_iff in Hin. destruct Hin as (q & E & Hq).
    apply in_map_iff. exists q. split; [|exact Hq].
    unfold port_key. rewrite E, (Hl q), (Hl p); auto using in_eq, in_cons.
  - apply IH; [exact Nl|]. intros q Hq. apply Hl. right. exact Hq.
Qed.

Lemma address_of_port d m p :
  consistent d -> In m (computers d) -> In p (ports_of d m) ->
  address_of d p = Computer.ip_address m.
Proof.
  intros C Hm Hp. unfold ports_of in Hp. apply filter_In in Hp. destruct Hp as [_ Hp].
  apply Z.eqb_eq in Hp. unfold address_of.
  rewrite (@find_unique _ _ Computer.id _ (computers d) m); auto using computer_ids_unique.
  - rewrite Hp. apply Z.eqb_refl.
  - intros y Hy. apply Z.eqb_eq in Hy. congruence.
Qed.

Lemma listed_ports_listing d :
  consistent d ->
  listed_ports (listing d)
  = map (stored_port d) (flat_map (ports_of d) (flat_map (computers_of d) (clients d))).
Proof.
  intros C. unfold listed_ports, listing. rewrite flat_map_of_map, map_of_flat_map.
  set (L := flat_map (computers_of d) (clients d)).
  assert (HL : forall m, In m L -> In m (computers d)).
  { intros m Hm. subst L. apply in_flat_map in Hm. destruct Hm as (c & _ & Hm).
    unfold computers_of in Hm. apply filter_In in Hm. tauto. }
  transitivity (flat_map
                  (fun m => map (fun p => (Computer.ip_address m, Port.port_number p,
                                           Port.service_name p))
                                (ports_of d m)) L).
  - subst L. clear HL. induction (clients d) as [|c cs IH]; [reflexivity|].
    cbn [flat_map]. rewrite flat_map_app, IH. f_equal.
    cbn [client_view ClientView.computers]. rewrite flat_map_of_map.
    apply flat_map_ext. intros m.
    cbn [computer_view ComputerView.ports ComputerView.ip_address].
    rewrite dict_of_wf.
    + rewrite map_map. reflexivity.
    + unfold wf_dict, keys. rewrite map_map. cbn [fst].
      apply port_numbers_of_computer_unique. exact C.
  - apply flat_map_ext_in. intros m Hm. apply map_ext_in. intros p Hp.
    unfold stored_port. rewrite (@address_of_port d m p); auto.
Qed.

(** X14: on a consistent database list-all shows every port exactly once
    and under the computer it belongs to: the triples (address, port number,
    service name) of the listing are those of the ports table, each port row
    taken with the address of its computer, in another order. *)
Theorem listing_shows_every_port_once d :
  consistent d ->
  Permutation (listed_ports (listing d)) (map (stored_port d) (ports d)).
Proof.
  intros C. rewrite listed_ports_listing by exact C.
  apply Permutation_map. apply ports_in_listing_order. exact C.
Qed.

(** The database with acme and globex. *)
Lemma listing_shows_every_port_once_witness :
  consistent db_two /\
  Permutation (listed_ports (listing db_two)) (map (stored_port db_two) (ports db_two)).
Proof.
  assert (C : consistent db_two).
  { apply create_clients_consistent; [apply consistent_empty|].
    repeat constructor; simpl; intuition discriminate. }
  split; [exact C|]. exact (listing_shows_every_port_once C).
Defined.

(** ** A partial update and the other clients *)

Lemma filter_map_touched A (keep : A -> bool) (g : A -> A) (l : list A) :
  (forall x, In x l -> g x = x \/ (keep x = false /\ keep (g x) = false)) ->
  filter keep (map g l) = filter keep l.
Proof.
  induction l as [|x l IH]; intros H; cbn [map filter]; [reflexivity|].
  rewrite IH by (intros y Hy; apply H; right; exact Hy).
  destruct (H x (or_introl eq_refl)) as [E|[E1 E2]].
  - rewrite E. reflexivity.
  - rewrite E1, E2. reflexivity.
Qed.

Lemma untouched_update_computers c d t f m :
  consistent t -> untouched c d t ->
  In m (computers t) -> Computer.client_id m = Client.id c ->
  (forall r, computer_key (f r) = computer_key r) ->
  untouched c d (update_computers f (Computer.id m) t).
Proof.
  intros Ct [U1 U2] Hm Hown Hf. split; [|exact U2].
  rewrite <- U1. cbn [update_computers computers]. apply filter_map_touched.
  intros r Hr. destruct (Computer.id r =? Computer.id m)%Z eqn:E; [|left; reflexivity].
  right. apply Z.eqb_eq in E.
  assert (r = m) by (apply (@NoDup_map_eq _ _ Computer.id (computers t) r m
                              (computer_ids_unique Ct) Hr Hm E)).
  subst r. unfold owned_by.
  replace (Computer.client_id (f m)) with (Computer.client_id m)
    by (pose proof (Hf m) as K; unfold computer_key in K; congruence).
  rewrite Hown, Z.eqb_refl. auto.
Qed.

Lemma untouched_update_ports c d t f pe :
  consistent t -> untouched c d t ->
  In pe (ports t) -> under d c pe = true ->
  (forall p, port_ident (f p) = port_ident p) ->
  untouched c d (update_ports f (Port.id pe) t).
Proof.
  intros Ct [U1 U2] Hpe Hunder Hf. split; [exact U1|].
  rewrite <- U2. cbn [update_ports ports]. apply filter_map_touched.
  intros p Hp. destruct (Port.id p =? Port.id pe)%Z eqn:E; [|left; reflexivity].
  right. apply Z.eqb_eq in E.
  assert (p = pe) by (apply (@NoDup_map_eq _ _ Port.id (ports t) p pe
                               (port_ids_unique Ct) Hp Hpe E)).
  subst p.
  assert (Hsame : under d c (f pe) = under d c pe).
  { assert (E' : Port.computer_id (f pe) = Port.computer_id pe)
      by (pose proof (Hf pe) as K; unfold port_ident in K; congruence).
    unfold under. rewrite E'. reflexivity. }
  rewrite Hsame, Hunder. auto.
Qed.

Lemma under_found c d t m p :
  same_keys d t -> In m (computers t) -> Computer.client_id m = Client.id c ->
  Port.computer_id p = Computer.id m -> under d c p = true.
Proof.
  intros (_ & Km & _) Hm Hown Hp.
  destruct (In_map_same _ _ _ m Km Hm) as (m0 & Hm0 & E).
  unfold under. apply existsb_exists. exists m0. split; [exact Hm0|].
  unfold computer_key in E. inversion E as [[E1 E2 E3]].
  unfold owned_by. rewrite E3, Hown, Hp, E1, !Z.eqb_refl. reflexivity.
Qed.

(** The port loop of one computer of the client. *)
Lemma upsert_ports_untouched c d m (P : dict string) s r s' :
  consistent d -> same_keys d (tx s) -> untouched c d (tx s) ->
  In m (computers (tx s)) -> Computer.client_id m = Client.id c ->
  for_each P (upsert_port m) s = (r, s') ->
  same_keys d (tx s') /\ untouched c d (tx s').
Proof.
  intros C. revert s. induction P as [|[port service] P IH]; intros s K U Hm Hown H.
  - cbn in H. inversion H; subst. auto.
  - cbn [for_each] in H. unfold bind at 1, upsert_port at 1, bind at 1, query_port in H.
    destruct (find _ (ports (tx s))) as [pe|] eqn:F.
    + unfold set_service_name, on_tx in H.
      pose proof (find_some _ _ F) as [Hpe Hq]. apply andb_true_iff in Hq.
      destruct Hq as [Hq _]. apply Z.eqb_eq in Hq.
      set (f := fun p => Port.mk (Port.id p) (Port.port_number p) service
                                 (Port.computer_id p)) in *.
      assert (K1 : same_keys (tx s) (update_ports f (Port.id pe) (tx s)))
        by (apply same_keys_update_ports; reflexivity).
      assert (U1 : untouched c d (update_ports f (Port.id pe) (tx s))).
      { apply untouched_update_ports; auto.
        - exact (consistent_same_keys K C).
        - eapply under_found; eauto. }
      apply IH in H; cbn [tx]; auto.
      eapply same_keys_trans; eauto.
    + unfold add_port at 1 in H. apply IH in H; cbn [tx]; auto.
Qed.

(** The loop of [update_client]. *)
Lemma upsert_untouched c d (items : dict ComputerData.t) s r s' :
  consistent d -> same_keys d (tx s) -> untouched c d (tx s) ->
  for_each items (upsert_computer c) s = (r, s') ->
  same_keys d (tx s') /\ untouched c d (tx s').
Proof.
  intros C. revert s. induction items as [|[ip cd] items IH]; intros s K U H.
  - cbn in H. inversion H; subst. auto.
  - cbn [for_each] in H.
    unfold bind at 1, upsert_computer at 1, bind at 1, query_computer in H.
    destruct (find _ (computers (tx s))) as [m|] eqn:F.
    + pose proof (find_some _ _ F) as [Hm Hq]. apply andb_true_iff in Hq.
      destruct Hq as [_ Hown]. apply Z.eqb_eq in Hown.
      unfold bind at 1, set_latency at 1, on_tx at 1 in H.
      unfold bind at 1, set_hostname at 1, on_tx at 1 in H.
      cbn [committed tx new_computers new_ports] in H.
      set (f1 := fun m0 => Computer.mk (Computer.id m0) (Computer.ip_address m0)
                             (get_or (ComputerData.latency cd) (Computer.latency m))
                             (Computer.hostname m0) (Computer.client_id m0)) in *.
      set (f2 := fun m0 => Computer.mk (Computer.id m0) (Computer.ip_address m0)
                             (Computer.latency m0)
                             (get_or (ComputerData.hostname cd) (Computer.hostname m))
                             (Computer.client_id m0)) in *.
      set (t1 := update_computers f1 (Computer.id m) (tx s)) in *.
      set (t2 := update_computers f2 (Computer.id m) t1) in *.
      assert (K1 : same_keys (tx s) t1) by (apply same_keys_update_computers; reflexivity).
      assert (K2 : same_keys t1 t2) by (apply same_keys_update_computers; reflexivity).
      pose proof (same_keys_trans K K1) as Kd1.
      pose proof (same_keys_trans Kd1 K2) as Kd2.
      assert (U1 : untouched c d t1).
      { apply untouched_update_computers; auto. exact (consistent_same_keys K C). }
      assert (Hm1 : In (f1 m) (computers t1)).
      { cbn [t1 update_computers computers]. apply in_map_iff. exists m.
        rewrite Z.eqb_refl. auto. }
      assert (U2 : untouched c d t2).
      { apply (@untouched_update_computers c d t1 f2 (f1 m)); auto.
        exact (consistent_same_keys Kd1 C). }
      assert (Hm2 : In (f2 (f1 m)) (computers t2)).
      { cbn [t2 update_computers computers]. apply in_map_iff. exists (f1 m).
        cbn [f1 Computer.id]. rewrite Z.eqb_refl. auto. }
      set (s2 := mkSession (committed s) t2 (new_computers s) (new_ports s)) in *.
      destruct (get_or (ComputerData.ports cd) (Some [])) as [P|]; cbn [for_items] in H.
      2: { unfold raise in H. inversion H; subst. auto. }
      destruct (for_each P (upsert_port m) s2) as [r3 s3] eqn:F3.
      change (upsert_port m) with (upsert_port (f2 (f1 m))) in F3.
      destruct (@upsert_ports_untouched c d (f2 (f1 m)) _ s2 r3 s3 C Kd2 U2 Hm2 Hown F3)
        as (K3 & U3).
      destruct r3 as [[]|e].
      * apply IH in H; auto.
      * inversion H; subst. auto.
    + unfold add_computer at 1 in H. apply IH in H; cbn [tx]; auto.
Qed.

(** X15: a partial update that succeeds on a consistent database leaves
    every other client as list-all showed it: the tree of a client with
    another name -- its computers, their latency and hostname, their ports and
    service names -- is the same before and after, whatever the patch. *)
Theorem update_client_other_clients client_name data d r d' c2 :
  consistent d ->
  update_client client_name data d = (Return r, d') ->
  In c2 (clients d) -> Client.name c2 <> client_name ->
  client_view d' c2 = client_view d c2.
Proof.
  intros C H Hc2 Hne.
  destruct (find (fun c => String.eqb (Client.name c) client_name) (clients d))
    as [c|] eqn:Hc.
  2: { rewrite update_client_run, Hc in H. discriminate. }
  pose proof (find_some _ _ Hc) as [Hin Hname]. apply String.eqb_eq in Hname.
  assert (Hid : Client.id c2 <> Client.id c).
  { intros E. apply Hne. rewrite <- Hname. f_equal.
    apply (@NoDup_map_eq _ _ Client.id (clients d) c2 c (client_ids_unique C) Hc2 Hin E). }
  destruct (@update_client_typed_or_null client_name data d c Hc) as [[Hnn Hty]|Hnull].
  2: { rewrite Hnull in H. discriminate. }
  set (items := get_or (get (UpdateData.computers data)) []) in *.
  destruct (@upsert_loop c items (SessionLocal d) Hty) as (t & Hloop & K).
  assert (U : untouched c d t).
  { exact (proj2 (@upsert_untouched c d items (SessionLocal d) _ _ C (same_keys_refl d)
                    (conj eq_refl eq_refl) Hloop)). }
  rewrite update_client_run, Hc, (get_or_not_null Hnn) in H. fold items in H.
  rewrite Hloop in H.
  cbn [new_computers new_ports tx SessionLocal app] in H.
  destruct (insert_computers (pending_computers d c items) t) as [d1|e] eqn:Hins;
    [|discriminate].
  inversion H; subst; clear H.
  apply insert_computers_grow in Hins.
  destruct Hins as (_ & Hp1 & added & Hm1 & Hcid & _).
  destruct (ports_insert_ports (pending_ports d c items) d1) as (rows & Hrows & Hcontent).
  destruct U as [U1 U2].
  assert (Hadded : forall m, In m added -> Computer.client_id m = Client.id c).
  { intros m Hm. apply (in_map Computer.client_id) in Hm. rewrite Hcid in Hm.
    unfold pending_computers in Hm. rewrite map_map in Hm.
    apply in_map_iff in Hm. destruct Hm as (it & E & _). symmetry. exact E. }
  assert (Hrows_c : forall q, In q rows ->
            exists m, In m (computers d) /\ Computer.client_id m = Client.id c /\
                      Port.computer_id q = Computer.id m).
  { intros q Hq. apply (in_map port_content) in Hq. rewrite Hcontent in Hq.
    apply in_map_iff in Hq. destruct Hq as (p & E & Hp).
    apply pending_ports_In in Hp.
    destruct Hp as (ip & cd & m & num & svc & _ & Hm & _ & _ & Ep). subst p.
    apply computer_of_Some in Hm. destruct Hm as (Hm & _ & Hown).
    exists m. split; [exact Hm|]. split; [exact Hown|].
    unfold new_port_content, port_content in E. congruence. }
  unfold client_view. f_equal.
  assert (Ecomputers : computers_of (insert_ports (pending_ports d c items) d1) c2
                       = computers_of d c2).
  { unfold computers_of. rewrite computers_insert_ports, Hm1, filter_app.
    rewrite (filter_none _ added), app_nil_r.
    2: { intros m Hm. rewrite (Hadded m Hm). apply Z.eqb_neq. congruence. }
    rewrite <- (filter_filter_absorb
                  (fun m => (Computer.client_id m =? Client.id c2)%Z)
                  (fun m => negb (owned_by c m)) (computers t)).
    2: { intros m _ E. apply Z.eqb_eq in E. unfold owned_by. rewrite E.
         apply negb_true_iff, Z.eqb_neq. exact Hid. }
    rewrite U1. apply filter_filter_absorb.
    intros m _ E. apply Z.eqb_eq in E. unfold owned_by. rewrite E.
    apply negb_true_iff, Z.eqb_neq. exact Hid. }
  rewrite Ecomputers. apply map_ext_in. intros m2 Hm2.
  unfold computers_of in Hm2. apply filter_In in Hm2. destruct Hm2 as [Hm2 Hown2].
  apply Z.eqb_eq in Hown2.
  assert (Hout : forall p, Port.computer_id p = Computer.id m2 -> under d c p = false).
  { intros p Hp. apply not_true_is_false. intros Hu. unfold under in Hu.
    apply existsb_exists in Hu. destruct Hu as (m0 & Hm0 & Hu).
    apply andb_true_iff in Hu. destruct Hu as [Ho He].
    apply Z.eqb_eq in He. unfold owned_by in Ho. apply Z.eqb_eq in Ho.
    assert (m0 = m2)
      by (apply (@NoDup_map_eq _ _ Computer.id (computers d) m0 m2
                   (computer_ids_unique C) Hm0 Hm2); congruence).
    subst m0. congruence. }
  unfold computer_view. f_equal. f_equal. unfold ports_of.
  rewrite Hrows, Hp1, filter_app.
  rewrite (filter_none _ rows), app_nil_r.
  2: { intros q Hq. destruct (Hrows_c q Hq) as (m & Hm & Hown & Eq).
       apply Z.eqb_neq. intros E.
       assert (m = m2)
         by (apply (@NoDup_map_eq _ _ Computer.id (computers d) m m2
                      (computer_ids_unique C) Hm Hm2); congruence).
       subst m. congruence. }
  rewrite <- (filter_filter_absorb
                (fun p => (Port.computer_id p =? Computer.id m2)%Z)
                (fun p => negb (under d c p)) (ports t)).
  2: { intros p _ E. apply Z.eqb_eq in E. rewrite (Hout p E). reflexivity. }
  rewrite U2. f_equal. apply filter_filter_absorb.
  intros p _ E. apply Z.eqb_eq in E. rewrite (Hout p E). reflexivity.
Qed.

(** A patch on globex that rewrites its computer and adds a port leaves
    the tree of acme alone. *)
Lemma update_client_other_clients_witness :
  consistent db_two /\
  client_view
    (snd (update_client "globex"
            (UpdateData.mk
               (Some (Some [("10.0.0.9",
                       ComputerData.mk (Some (Some "1ms")) None (Some (Some [("80", "http")])))])))
            db_two))
    (Client.mk 1 "acme")
  = client_view db_two (Client.mk 1 "acme").
Proof.
  assert (C : consistent db_two).
  { apply create_clients_consistent; [apply consistent_empty|].
    repeat constructor; simpl; intuition discriminate. }
  split; [exact C|].
  assert (Hc2 : In (Client.mk 1 "acme") (clients db_two)) by (vm_compute; auto).
  assert (Hne : Client.name (Client.mk 1 "acme") <> "globex") by discriminate.
  exact (@update_client_other_clients "globex"
           (UpdateData.mk
              (Some (Some [("10.0.0.9",
                      ComputerData.mk (Some (Some "1ms")) None (Some (Some [("80", "http")])))])))
           db_two (Message "Client 'globex' updated successfully")
           (snd (update_client "globex"
                   (UpdateData.mk
                      (Some (Some [("10.0.0.9",
                              ComputerData.mk (Some (Some "1ms")) None
                                              (Some (Some [("80", "http")])))])))
                   db_two))
           (Client.mk 1 "acme") C eq_refl Hc2 Hne).
Defined.
